(** * Email QA engine: content extraction, rule-based comparison, report status

    A shallow embedding of the deterministic core of the email QA service:

    - [services/functionComparator.js]  (rule-based comparator),
    - [services/reportGenerator.js]     (overall status and issues of the
                                         report),
    - the [EmailFetcher] class          (text, CTA, link, footer and
                                         unsubscribe extraction, and
                                         tracking-parameter stripping),
    - [server.js]                       (the comparison route: configuration
                                         defaults, gating of the semantic
                                         comparison),
    - the [DocumentParser] class        (normalisation of the reference text),
    - the configuration form of the front end.

    JavaScript strings are modelled by [string]: every [ascii] stands for one
    UTF-16 code unit in the range U+0000..U+00FF.  All string primitives used
    by the program ([toLowerCase], [trim], [includes], [startsWith], [split],
    [join], [===], [+]) map this set of strings into itself, and they are
    modelled exactly on it. *)

From Stdlib Require Import Bool Arith NArith List Ascii String Lia.
Import ListNotations.

Open Scope string_scope.
Open Scope list_scope.

(** String concatenation, the [+] of JavaScript on strings. *)
Infix "+++" := String.append (at level 60, right associativity).

(* ================================================================== *)
(** * JavaScript string primitives *)
(* ================================================================== *)

Module JS.

Definition code (c : ascii) : nat := nat_of_ascii c.

(** Code units with a distinct lower-case form: A-Z and the Latin-1
    capitals U+00C0..U+00DE (U+00D7, the multiplication sign, excepted). *)
Definition isUpper (c : ascii) : bool :=
  let n := code c in
  (((65 <=? n) && (n <=? 90)) ||
   ((192 <=? n) && (n <=? 222) && negb (n =? 215)))%nat.

Definition lowerChar (c : ascii) : ascii :=
  if isUpper c then ascii_of_nat (code c + 32) else c.

(** [s.toLowerCase()] *)
Fixpoint toLowerCase (s : string) : string :=
  match s with
  | EmptyString => EmptyString
  | String c s' => String (lowerChar c) (toLowerCase s')
  end.

(** [s.startsWith(p)] *)
Fixpoint startsWith (s p : string) : bool :=
  match p, s with
  | EmptyString, _ => true
  | String _ _, EmptyString => false
  | String a p', String b s' => Ascii.eqb a b && startsWith s' p'
  end.

(** [s.includes(sub)] *)
Fixpoint includes (s sub : string) : bool :=
  startsWith s sub ||
  match s with
  | EmptyString => false
  | String _ s' => includes s' sub
  end.

(** White space and line terminators of ECMAScript below U+0100:
    TAB, LF, VT, FF, CR, SPACE and NO-BREAK SPACE.  This is also the
    class [\s] of regular expressions. *)
Definition isWhiteSpace (c : ascii) : bool :=
  let n := code c in
  (((9 <=? n) && (n <=? 13)) || (n =? 32) || (n =? 160))%nat.

Fixpoint trimStart (s : string) : string :=
  match s with
  | EmptyString => EmptyString
  | String c s' => if isWhiteSpace c then trimStart s' else s
  end.

(** Drops the white space at the end of [s]. *)
Fixpoint trimEnd (s : string) : string :=
  match s with
  | EmptyString => EmptyString
  | String c s' =>
      match trimEnd s' with
      | EmptyString => if isWhiteSpace c then EmptyString else String c EmptyString
      | t => String c t
      end
  end.

(** [s.trim()] *)
Definition trim (s : string) : string := trimEnd (trimStart s).

(** Truthiness of a string: the empty string is the only falsy one. *)
Definition truthy (s : string) : bool :=
  match s with EmptyString => false | String _ _ => true end.

(** [a || b] on strings. *)
Definition orElse (a b : string) : string := if truthy a then a else b.

(** [s.split(sep)] for a one-code-unit separator: never the empty array. *)
Fixpoint split (sep : ascii) (s : string) : list string :=
  match s with
  | EmptyString => [EmptyString]
  | String c s' =>
      if Ascii.eqb c sep then EmptyString :: split sep s'
      else match split sep s' with
           | [] => [String c EmptyString]
           | l :: ls => String c l :: ls
           end
  end.

(** [arr.join(sep)] *)
Fixpoint join (sep : string) (l : list string) : string :=
  match l with
  | [] => EmptyString
  | [x] => x
  | x :: rest => x +++ sep +++ join sep rest
  end.

(** [arr.slice(-n)]: the last [n] elements, the whole array when it is
    shorter. *)
Definition sliceLast {A : Type} (n : nat) (l : list A) : list A :=
  skipn (List.length l - n) l.

Definition LF : ascii := ascii_of_nat 10.
Definition newline : string := String LF EmptyString.
Definition dquote : string := String (ascii_of_nat 34) EmptyString.

End JS.

(* ================================================================== *)
(** * Rule-based comparator  (services/functionComparator.js) *)
(* ================================================================== *)

Inductive Status : Type := PASS | FAIL.

Definition Status_eqb (a b : Status) : bool :=
  match a, b with
  | PASS, PASS | FAIL, FAIL => true
  | _, _ => false
  end.

(** One CTA candidate as the extractor emits it. *)
Record CTA : Type := mkCTA
  { cta_text : string;
    cta_url : string;
    cta_cleanUrl : string }.

(** [emailContent.hasUnsubscribe], the object built by [findUnsubscribe]. *)
Record UnsubscribeSignal : Type := mkSignal
  { hasText : bool;
    hasLink : bool;
    found : bool }.

(** The fields of [emailContent] read by the comparator.  The optional
    chaining [emailContent.hasUnsubscribe?.found] allows the signal to be
    absent. *)
Record EmailContent : Type := mkEmail
  { text : string;
    ctaButtons : list CTA;
    hasUnsubscribe : option UnsubscribeSignal;
    footer : string }.

(** The comparison configuration; [None] is a field left [undefined]. *)
Record Config : Type := mkConfig
  { ctaTexts : option (list string);
    ctaUrls : option (list string);
    requiredKeywords : option (list string);
    unsubscribeText : option string;
    footerTexts : option (list string) }.

Record CTAResult : Type := mkCTAResult
  { cta_status : Status;
    cta_message : option string;
    cta_expected : option (list string);
    cta_found : list string;
    cta_matched : option (list string);
    cta_issues : option (list string) }.

Record UnsubscribeResult : Type := mkUnsubscribeResult
  { unsub_status : Status;
    unsub_message : option string;
    unsub_required : option string;
    unsub_issues : option (list string);
    unsub_hasLink : option bool;
    unsub_hasText : option bool }.

Record FooterResult : Type := mkFooterResult
  { footer_status : Status;
    footer_required : list string;
    footer_found : list string;
    footer_issues : list string }.

Record KeywordsResult : Type := mkKeywordsResult
  { kw_status : Status;
    kw_message : option string;
    kw_required : option (list string);
    kw_found : option (list string);
    kw_missing : option (list string);
    kw_issues : option (list string) }.

(** [!xs || xs.length === 0] *)
Definition unconfigured (xs : option (list string)) : bool :=
  match xs with
  | None | Some [] => true
  | Some (_ :: _) => false
  end.

Definition listOf (xs : option (list string)) : list string :=
  match xs with None => [] | Some l => l end.

(** [issues.length === 0 ? 'PASS' : 'FAIL'] *)
Definition statusOfIssues {A : Type} (issues : list A) : Status :=
  match issues with [] => PASS | _ :: _ => FAIL end.

(** The accumulators [matched]/[found] and [issues]/[missing] of the
    comparator's loops: one [push] per element, on one side or the other. *)
Definition pushBy {A B C : Type} (test : A -> bool) (hit : A -> B) (miss : A -> C)
           (acc : list B * list C) (x : A) : list B * list C :=
  if test x then (fst acc ++ [hit x], snd acc) else (fst acc, snd acc ++ [miss x]).

Definition partitionLoop {A B C : Type} (test : A -> bool) (hit : A -> B)
           (miss : A -> C) (xs : list A) : list B * list C :=
  fold_left (pushBy test hit miss) xs ([], []).

(** The lenient, bidirectional containment used for CTA texts and URLs. *)
Definition lenientMatch (t expected : string) : bool :=
  String.eqb t expected || JS.includes t expected || JS.includes expected t.

Definition compareCTAText (documentText : string) (emailCTAs : list CTA)
           (expectedCTAs : option (list string)) : CTAResult :=
  if unconfigured expectedCTAs then
    {| cta_status := PASS;
       cta_message := Some "No specific CTAs configured for comparison";
       cta_expected := None;
       cta_found := map cta_text emailCTAs;
       cta_matched := None;
       cta_issues := None |}
  else
    let emailCTATexts := map (fun c => JS.trim (JS.toLowerCase (cta_text c))) emailCTAs in
    let '(matched, issues) :=
      partitionLoop
        (fun expectedCTA =>
           let normalizedExpected := JS.trim (JS.toLowerCase expectedCTA) in
           existsb (fun t => lenientMatch t normalizedExpected) emailCTATexts)
        (fun expectedCTA => expectedCTA)
        (fun expectedCTA => "CTA " +++ JS.dquote +++ expectedCTA +++ JS.dquote +++ " not found in email")
        (listOf expectedCTAs) in
    {| cta_status := statusOfIssues issues;
       cta_message := None;
       cta_expected := expectedCTAs;
       cta_found := map cta_text emailCTAs;
       cta_matched := Some matched;
       cta_issues := Some issues |}.

(* ================================================================== *)
(** * The platform's URL objects *)
(* ================================================================== *)

(** What the program reads from a parsed [URL] object.  [searchParams] is the
    live name/value list behind [urlObj.searchParams], names and values
    decoded.  [beforePath] is the serialisation of scheme, credentials, host
    and port, that is, [href] up to the path. *)
Record URL : Type := mkURL
  { origin : string;
    beforePath : string;
    pathname : string;
    searchParams : list (string * string);
    fragment : option string }.

(** [new URL(url)] of the platform; [None] when the constructor throws. *)
Class URLParser : Type := newURL : string -> option URL.

Module URLSearchParams.

Definition t : Type := list (string * string).

(** [params.delete(name)]: every tuple called [name] goes. *)
Definition delete (name : string) (l : t) : t :=
  filter (fun kv => negb (String.eqb (fst kv) name)) l.

Definition hexDigit (n : nat) : ascii :=
  match get n "0123456789ABCDEF" with
  | Some c => c
  | None => "0"%char
  end.

Definition percent (byte : nat) : string :=
  String "%" (String (hexDigit (byte / 16)) (String (hexDigit (byte mod 16)) "")).

(** Code units left as they are by the form-urlencoded serialiser:
    ASCII letters and digits, [*], [-], [.] and [_]. *)
Definition unreserved (c : ascii) : bool :=
  let n := JS.code c in
  (((48 <=? n) && (n <=? 57)) || ((65 <=? n) && (n <=? 90)) ||
   ((97 <=? n) && (n <=? 122)) ||
   (n =? 42) || (n =? 45) || (n =? 46) || (n =? 95))%nat.

(** One code unit, percent-encoded as UTF-8, a space as [+]. *)
Definition encodeChar (c : ascii) : string :=
  let n := JS.code c in
  if unreserved c then String c ""
  else if (n =? 32)%nat then "+"
  else if (n <? 128)%nat then percent n
  else percent (192 + n / 64) +++ percent (128 + n mod 64).

Fixpoint encode (s : string) : string :=
  match s with
  | EmptyString => EmptyString
  | String c s' => encodeChar c +++ encode s'
  end.

(** The application/x-www-form-urlencoded serialiser. *)
Definition serialize (l : t) : string :=
  JS.join "&" (map (fun kv => encode (fst kv) +++ "=" +++ encode (snd kv)) l).

End URLSearchParams.

(** [urlObj.toString()] once the search parameters have been written to:
    the query is the serialisation of the list, and is dropped together with
    its [?] when that is empty. *)
Definition URL_toString (u : URL) : string :=
  beforePath u +++ pathname u +++
  (match URLSearchParams.serialize (searchParams u) with
   | EmptyString => ""
   | q => "?" +++ q
   end) +++
  (match fragment u with
   | None => ""
   | Some f => "#" +++ f
   end).

Definition setSearchParams (u : URL) (l : URLSearchParams.t) : URL :=
  {| origin := origin u;
     beforePath := beforePath u;
     pathname := pathname u;
     searchParams := l;
     fragment := fragment u |}.

(* ================================================================== *)
(** * Tracking-parameter stripping  (EmailFetcher.stripTrackingParams) *)
(* ================================================================== *)

Definition trackingParams : list string :=
  [ "utm_source"; "utm_medium"; "utm_campaign"; "utm_term"; "utm_content";
    "elqTrack"; "elqTrackId"; "mkt_tok"; "mc_cid"; "mc_eid";
    "sfmc_id"; "subscriber_id"; "contact_id"; "lead_id";
    "_hsenc"; "_hsmi"; "hsa_"; "fbclid"; "gclid"; "msclkid";
    "trk"; "track"; "tracking"; "ref"; "source" ].

(** [key.toLowerCase().startsWith(param.toLowerCase())] *)
Definition startsWithParam (key param : string) : bool :=
  JS.startsWith (JS.toLowerCase key) (JS.toLowerCase param).

(** The loop [for (const [key] of urlObj.searchParams) { ... delete(key) }].
    The iterator of a [URLSearchParams] is an index into the live list: each
    step reads the tuple at [index] and moves to [index + 1], whatever the
    body did to the list.  [fuel] bounds the number of steps. *)
Fixpoint deleteWhileIterating (fuel : nat) (param : string) (index : nat)
         (l : URLSearchParams.t) : URLSearchParams.t :=
  match fuel with
  | 0 => l
  | S fuel' =>
      match nth_error l index with
      | None => l
      | Some (key, _) =>
          deleteWhileIterating fuel' param (S index)
            (if startsWithParam key param then URLSearchParams.delete key l else l)
      end
  end.

(** The body of [this.trackingParams.forEach(param => ...)].  The list never
    grows and the index moves on at every step, so its length is fuel
    enough (see [deleteWhileIterating_fuel]). *)
Definition stripParam (l : URLSearchParams.t) (param : string) : URLSearchParams.t :=
  let l := URLSearchParams.delete param l in
  deleteWhileIterating (List.length l) param 0 l.

Definition stripAll (l : URLSearchParams.t) : URLSearchParams.t :=
  fold_left stripParam trackingParams l.

Definition stripTrackingParams `{URLParser} (url : string) : string :=
  match newURL url with
  | Some urlObj => URL_toString (setSearchParams urlObj (stripAll (searchParams urlObj)))
  | None => url
  end.

(** [url.replace(/\/$/, '')]: one trailing slash goes. *)
Fixpoint stripTrailingSlash (s : string) : string :=
  match s with
  | EmptyString => EmptyString
  | String c EmptyString => if Ascii.eqb c "/" then EmptyString else s
  | String c s' => String c (stripTrailingSlash s')
  end.

(** [FunctionComparator.normalizeUrl] *)
Definition normalizeUrl `{URLParser} (url : string) : string :=
  match newURL url with
  | Some urlObj => JS.toLowerCase (origin urlObj) +++ stripTrailingSlash (pathname urlObj)
  | None => stripTrailingSlash (JS.toLowerCase url)
  end.

(* ================================================================== *)
(** * Rule-based comparator, continued *)
(* ================================================================== *)

Definition compareCTAUrls `{URLParser} (emailCTAs : list CTA)
           (expectedUrls : option (list string)) : CTAResult :=
  if unconfigured expectedUrls then
    {| cta_status := PASS;
       cta_message := Some "No specific URLs configured for comparison";
       cta_expected := None;
       cta_found := map cta_cleanUrl emailCTAs;
       cta_matched := None;
       cta_issues := None |}
  else
    let '(matched, issues) :=
      partitionLoop
        (fun expectedUrl =>
           let cleanExpected := normalizeUrl expectedUrl in
           existsb (fun c => lenientMatch (normalizeUrl (cta_cleanUrl c)) cleanExpected)
                   emailCTAs)
        (fun expectedUrl => expectedUrl)
        (fun expectedUrl =>
           "URL " +++ JS.dquote +++ expectedUrl +++ JS.dquote +++ " not found in email CTAs")
        (listOf expectedUrls) in
    {| cta_status := statusOfIssues issues;
       cta_message := None;
       cta_expected := expectedUrls;
       cta_found := map cta_cleanUrl emailCTAs;
       cta_matched := Some matched;
       cta_issues := Some issues |}.

(** [emailContent.hasUnsubscribe?.f], an absent signal or field being falsy. *)
Definition signalField (f : UnsubscribeSignal -> bool) (emailContent : EmailContent) : bool :=
  match hasUnsubscribe emailContent with
  | Some s => f s
  | None => false
  end.

Definition checkUnsubscribe (emailContent : EmailContent)
           (requiredText : option string) : UnsubscribeResult :=
  let requiredText := match requiredText with Some t => t | None => "unsubscribe" end in
  let hasUnsubscribe := signalField found emailContent in
  let textLower := JS.toLowerCase (text emailContent) in
  let hasRequiredText := JS.includes textLower (JS.toLowerCase requiredText) in
  if negb hasUnsubscribe && negb hasRequiredText then
    {| unsub_status := FAIL;
       unsub_message := Some "No unsubscribe link or text found";
       unsub_required := Some requiredText;
       unsub_issues := Some ["Missing unsubscribe link/text - COMPLIANCE ISSUE"];
       unsub_hasLink := None;
       unsub_hasText := None |}
  else
    {| unsub_status := PASS;
       unsub_message := None;
       unsub_required := None;
       unsub_issues := None;
       unsub_hasLink := Some (signalField hasLink emailContent || false);
       unsub_hasText := Some (signalField hasText emailContent || hasRequiredText) |}.

Definition defaultCompliance : list string :=
  [ "all rights reserved"; "privacy policy"; "terms" ].

(** [(footerText + ' ' + fullText).toLowerCase()] *)
Definition footerSearchText (footerText fullText : string) : string :=
  JS.toLowerCase (footerText +++ " " +++ fullText).

Definition checkFooter (footerText fullText : string)
           (requiredTexts : option (list string)) : FooterResult :=
  let requiredTexts := listOf requiredTexts in
  let textsToCheck :=
    if (0 <? List.length requiredTexts)%nat then requiredTexts else defaultCompliance in
  let searchText := footerSearchText footerText fullText in
  let '(found, issues) :=
    partitionLoop
      (fun text => JS.includes searchText (JS.toLowerCase text))
      (fun text => text)
      (fun text => "Required footer text " +++ JS.dquote +++ text +++ JS.dquote +++ " not found")
      textsToCheck in
  if (List.length found =? 0)%nat && (0 <? List.length requiredTexts)%nat then
    {| footer_status := FAIL;
       footer_required := textsToCheck;
       footer_found := [];
       footer_issues := issues |}
  else
    {| footer_status := statusOfIssues issues;
       footer_required := textsToCheck;
       footer_found := found;
       footer_issues := issues |}.

Definition checkKeywords (emailText : string)
           (requiredKeywords : option (list string)) : KeywordsResult :=
  if unconfigured requiredKeywords then
    {| kw_status := PASS;
       kw_message := Some "No specific keywords configured for comparison";
       kw_required := None;
       kw_found := None;
       kw_missing := None;
       kw_issues := None |}
  else
    let textLower := JS.toLowerCase emailText in
    let '(found, missing) :=
      partitionLoop
        (fun keyword => JS.includes textLower (JS.toLowerCase keyword))
        (fun keyword => keyword)
        (fun keyword => keyword)
        (listOf requiredKeywords) in
    {| kw_status := statusOfIssues missing;
       kw_message := None;
       kw_required := requiredKeywords;
       kw_found := Some found;
       kw_missing := Some missing;
       kw_issues :=
         Some (map (fun k => "Required keyword " +++ JS.dquote +++ k +++ JS.dquote
                             +++ " not found in email") missing) |}.

(** The object returned by [compare], one field per check. *)
Record FunctionResults : Type := mkResults
  { res_cta_text : CTAResult;
    res_cta_url : CTAResult;
    res_unsubscribe : UnsubscribeResult;
    res_footer : FooterResult;
    res_keywords : KeywordsResult }.

Definition compare `{URLParser} (documentText : string) (emailContent : EmailContent)
           (config : Config) : FunctionResults :=
  {| res_cta_text := compareCTAText documentText (ctaButtons emailContent) (ctaTexts config);
     res_cta_url := compareCTAUrls (ctaButtons emailContent) (ctaUrls config);
     res_unsubscribe := checkUnsubscribe emailContent (unsubscribeText config);
     res_footer := checkFooter (footer emailContent) (text emailContent) (footerTexts config);
     res_keywords := checkKeywords (text emailContent) (requiredKeywords config) |}.

(** [Object.values(functionResults).every(r => r.status === 'PASS')], the
    flag the server hands to the report generator. *)
Definition functionPassed (r : FunctionResults) : bool :=
  forallb (fun s => Status_eqb s PASS)
    [ cta_status (res_cta_text r); cta_status (res_cta_url r);
      unsub_status (res_unsubscribe r); footer_status (res_footer r);
      kw_status (res_keywords r) ].

(* ================================================================== *)
(** * Report generator  (services/reportGenerator.js) *)
(* ================================================================== *)

(** The values found in a semantic result. *)
#[warnings="-register-all"] Inductive jsval : Type :=
| JUndefined
| JNull
| JBool (b : bool)
| JNum (n : nat)
| JStr (s : string)
| JArr (items : list jsval)
| JObj (fields : list (string * jsval)).

(** The truthiness of a value, as [!v] and [v && ...] see it. *)
Definition truthy (v : jsval) : bool :=
  match v with
  | JUndefined | JNull => false
  | JBool b => b
  | JNum n => negb (n =? 0)%nat
  | JStr s => JS.truthy s
  | JArr _ | JObj _ => true
  end.

Fixpoint lookup (key : string) (fields : list (string * jsval)) : jsval :=
  match fields with
  | [] => JUndefined
  | (k, v) :: rest => if String.eqb k key then v else lookup key rest
  end.

(** [v?.key]: [undefined] on [null] and [undefined], and on the values that
    carry no such property. *)
Definition optGet (v : jsval) (key : string) : jsval :=
  match v with
  | JObj fields => lookup key fields
  | _ => JUndefined
  end.

(** [v === 'FAIL'] *)
Definition isFAIL (v : jsval) : bool :=
  match v with
  | JStr s => String.eqb s "FAIL"
  | _ => false
  end.

(** The loop over [Object.entries(semanticResults)], returning at the first
    entry whose status is FAIL; [None] when the loop runs to its end. *)
Fixpoint firstFailedEntry (entries : list (string * jsval)) : option Status :=
  match entries with
  | [] => None
  | (_, result) :: rest =>
      if isFAIL (optGet result "status") then Some FAIL else firstFailedEntry rest
  end.

(** [semanticResults] is [null] ([None]) or an object, given by its entries. *)
Definition determineOverallStatus (functionResults : FunctionResults)
           (semanticResults : option (list (string * jsval)))
           (functionPassed : bool) : Status :=
  if negb functionPassed then FAIL
  else
    match semanticResults with
    | None => PASS
    | Some sem =>
        if negb (truthy (lookup "overall_match" sem)) then FAIL
        else match firstFailedEntry sem with
             | Some st => st
             | None => PASS
             end
    end.

(* ================================================================== *)
(** * The loaded document and its selectors  (cheerio) *)
(* ================================================================== *)

(** The nodes of a loaded document that carry text or structure.  The
    extractor receives the document after [script], [style], [head], [meta] and [link]
    elements have been removed from it. *)
#[warnings="-register-all"] Inductive node : Type :=
| Text (data : string)
| Element (name : string) (attribs : list (string * string)) (children : list node).

(** A document is the list of the children of its root. *)
Definition document : Type := list node.

(** [$(el).text()]: the text nodes below [el], concatenated. *)
Fixpoint textOf (n : node) : string :=
  match n with
  | Text data => data
  | Element _ _ children =>
      (fix textOfAll (l : list node) : string :=
         match l with
         | [] => EmptyString
         | c :: rest => textOf c +++ textOfAll rest
         end) children
  end.

(** [.text()] of a selection: the texts of its elements, concatenated. *)
Definition textOfAll (sel : list node) : string :=
  fold_right (fun n acc => textOf n +++ acc) EmptyString sel.

Fixpoint getAttr (key : string) (attribs : list (string * string)) : option string :=
  match attribs with
  | [] => None
  | (k, v) :: rest => if String.eqb k key then Some v else getAttr key rest
  end.

(** [$(el).attr(key)] *)
Definition attr (key : string) (n : node) : option string :=
  match n with
  | Text _ => None
  | Element _ attribs _ => getAttr key attribs
  end.

(** The white-space separated words of an attribute value. *)
Fixpoint tokens (s : string) : list string :=
  match s with
  | EmptyString => [EmptyString]
  | String c s' =>
      if JS.isWhiteSpace c then EmptyString :: tokens s'
      else match tokens s' with
           | [] => [String c EmptyString]
           | t :: ts => String c t :: ts
           end
  end.

Definition inb (x : string) (l : list string) : bool := existsb (String.eqb x) l.

(** The simple selectors the extractor uses. *)
Inductive simple : Type :=
| Tag (name : string)                        (* a          *)
| Class (word : string)                      (* .footer    *)
| Id (value : string)                        (* #footer    *)
| HasAttr (key : string)                     (* [href]     *)
| AttrContains (key value : string).         (* [class*=x] *)

(** A compound selector, with the compound its ancestor must match when it
    is the right-hand side of a descendant combinator. *)
Inductive complex : Type :=
| Compound (c : list simple)
| Descendant (ancestor c : list simple).

(** A comma-separated selector list. *)
Definition selector : Type := list complex.

Definition matchSimple (name : string) (attribs : list (string * string))
           (s : simple) : bool :=
  match s with
  | Tag t => String.eqb name t
  | Class w =>
      match getAttr "class" attribs with
      | Some v => inb w (tokens v)
      | None => false
      end
  | Id i =>
      match getAttr "id" attribs with
      | Some v => String.eqb v i
      | None => false
      end
  | HasAttr k =>
      match getAttr k attribs with
      | Some _ => true
      | None => false
      end
  | AttrContains k x =>
      match getAttr k attribs with
      | Some v => JS.includes v x
      | None => false
      end
  end.

Definition matchCompound (c : list simple) (el : string * list (string * string)) : bool :=
  forallb (matchSimple (fst el) (snd el)) c.

Definition matchComplex (ancestors : list (string * list (string * string)))
           (el : string * list (string * string)) (c : complex) : bool :=
  match c with
  | Compound c => matchCompound c el
  | Descendant a c => matchCompound c el && existsb (matchCompound a) ancestors
  end.

(** The elements at and below [n] matched by [sel], in document order, each
    at most once. *)
Fixpoint selectIn (sel : selector) (ancestors : list (string * list (string * string)))
         (n : node) : list node :=
  match n with
  | Text _ => []
  | Element name attribs children =>
      (if existsb (matchComplex ancestors (name, attribs)) sel then [n] else []) ++
      (fix selectAll (l : list node) : list node :=
         match l with
         | [] => []
         | c :: rest => selectIn sel ((name, attribs) :: ancestors) c ++ selectAll rest
         end) children
  end.

(** [$(selector)] *)
Definition select (sel : selector) (doc : document) : list node :=
  flat_map (selectIn sel []) doc.

(* ================================================================== *)
(** * Content extraction  (EmailFetcher) *)
(* ================================================================== *)

Definition ctaSelectors : selector :=
  [ Compound [Tag "a"; Class "button"];
    Compound [Tag "a"; Class "btn"];
    Compound [Tag "a"; Class "cta"];
    Compound [Tag "a"; AttrContains "class" "button"];
    Compound [Tag "a"; AttrContains "class" "btn"];
    Compound [Tag "a"; AttrContains "class" "cta"];
    Compound [Tag "a"; AttrContains "style" "background"];
    Descendant [Class "button"] [Tag "a"];
    Descendant [Class "btn"] [Tag "a"];
    Descendant [Class "cta"] [Tag "a"] ].

Definition ctaWords : list string :=
  [ "shop"; "buy"; "get"; "learn"; "discover"; "start"; "try"; "sign";
    "register"; "subscribe"; "download"; "view"; "see"; "explore"; "claim";
    "grab"; "save" ].

(** [/^(shop|buy|...)/i.test(text)] *)
Definition ctaKeywords (text : string) : bool :=
  existsb (fun w => JS.startsWith (JS.toLowerCase text) w) ctaWords.

(** [$el.text().trim()] *)
Definition elText (el : node) : string := JS.trim (textOf el).

(** [$el.attr('href') || ''] *)
Definition elHref (el : node) : string :=
  match attr "href" el with
  | Some h => h
  | None => EmptyString
  end.

Definition candidate `{URLParser} (el : node) : CTA :=
  {| cta_text := elText el;
     cta_url := elHref el;
     cta_cleanUrl := stripTrackingParams (elHref el) |}.

(** The body of the first [each]: button-like anchors. *)
Definition pushButton `{URLParser} (ctas : list CTA) (el : node) : list CTA :=
  if JS.truthy (elText el) && JS.truthy (elHref el)
  then ctas ++ [candidate el]
  else ctas.

(** [ctas.find(c => c.text === text)], as a truth value. *)
Definition hasText_in (text : string) (ctas : list CTA) : bool :=
  existsb (fun c => String.eqb (cta_text c) text) ctas.

(** The body of the second [each]: anchors that open with an action word. *)
Definition pushProminent `{URLParser} (ctas : list CTA) (el : node) : list CTA :=
  if JS.truthy (elText el) && JS.truthy (elHref el)
     && ctaKeywords (elText el) && negb (hasText_in (elText el) ctas)
  then ctas ++ [candidate el]
  else ctas.

Definition extractCTAs `{URLParser} (dom : document) : list CTA :=
  let ctas := fold_left pushButton (select ctaSelectors dom) [] in
  fold_left pushProminent (select [Compound [Tag "a"]] dom) ctas.

(** [$('body').text()] *)
Definition bodyText (dom : document) : string :=
  textOfAll (select [Compound [Tag "body"]] dom).

Definition unsubscribeLinkSelector : selector :=
  [ Compound [Tag "a"; AttrContains "href" "unsubscribe"];
    Compound [Tag "a"; AttrContains "href" "optout"];
    Compound [Tag "a"; AttrContains "href" "opt-out"] ].

Definition findUnsubscribe (dom : document) : UnsubscribeSignal :=
  let unsubText := JS.toLowerCase (bodyText dom) in
  let hasUnsubText :=
    JS.includes unsubText "unsubscribe" || JS.includes unsubText "opt out"
    || JS.includes unsubText "opt-out" in
  let unsubLink := (0 <? List.length (select unsubscribeLinkSelector dom))%nat in
  {| hasText := hasUnsubText;
     hasLink := unsubLink;
     found := hasUnsubText || unsubLink |}.

Definition footerSelectors : list selector :=
  [ [Compound [Tag "footer"]];
    [Compound [Class "footer"]];
    [Compound [AttrContains "class" "footer"]];
    [Compound [Id "footer"]] ].

(** The [for] loop of [extractFooter]: the trimmed text of the first element
    of the first selector that selects anything, the empty string when none
    does. *)
Fixpoint firstFooterText (selectors : list selector) (dom : document) : string :=
  match selectors with
  | [] => EmptyString
  | sel :: rest =>
      match select sel dom with
      | footer :: _ => JS.trim (textOf footer)
      | [] => firstFooterText rest dom
      end
  end.

(** [allText.split('\n').filter(l => l.trim())] *)
Definition nonBlankLines (allText : string) : list string :=
  filter (fun l => JS.truthy (JS.trim l)) (JS.split JS.LF allText).

Definition extractFooter (dom : document) : string :=
  let footerText := firstFooterText footerSelectors dom in
  if negb (JS.truthy footerText) then
    let lines := nonBlankLines (bodyText dom) in
    JS.join JS.newline (JS.sliceLast 5 lines)
  else footerText.

(* ================================================================== *)
(** * A reference URL parser for plain http(s) URLs *)
(* ================================================================== *)

(** [SimpleURL.parse] reads the URLs of the form

      [http(s)://host/path?query#fragment]

    whose host is made of dot-separated lower-case words, whose path uses
    letters, digits, [/], [_] and [-], whose query uses letters, digits,
    [_], [-], [.], [*], [=] and [&], and whose fragment uses letters, digits,
    [_] and [-].  On these the platform's parser changes nothing (no case
    folding, no dot segments, no percent-encoding or decoding, no port), so
    the record below is the one [new URL] builds.  Every other string is
    turned down; for a string that does not open with a scheme that is what
    [new URL] does as well.  The program is evaluated with this parser on
    strings of these two kinds only; the general theorems hold for every
    [URLParser]. *)
Module SimpleURL.

(** [s] cut at the first [sep]: what precedes it, and what follows it when
    [sep] occurs. *)
Fixpoint cut (sep : ascii) (s : string) : string * option string :=
  match s with
  | EmptyString => (EmptyString, None)
  | String c s' =>
      if Ascii.eqb c sep then (EmptyString, Some s')
      else let '(a, b) := cut sep s' in (String c a, b)
  end.

Fixpoint allChars (p : ascii -> bool) (s : string) : bool :=
  match s with
  | EmptyString => true
  | String c s' => p c && allChars p s'
  end.

Definition isLower (c : ascii) : bool :=
  let n := JS.code c in ((97 <=? n) && (n <=? 122))%nat.

Definition isAlnum (c : ascii) : bool :=
  let n := JS.code c in
  (((48 <=? n) && (n <=? 57)) || ((65 <=? n) && (n <=? 90)) ||
   ((97 <=? n) && (n <=? 122)))%nat.

Definition oneOf (set : string) (c : ascii) : bool :=
  JS.includes set (String c EmptyString).

Definition okHost (h : string) : bool :=
  forallb (fun w => JS.truthy w && allChars isLower w) (JS.split "." h).

Definition okPath (p : string) : bool :=
  allChars (fun c => isAlnum c || oneOf "/_-" c) p.

Definition okQuery (q : string) : bool :=
  allChars (fun c => isAlnum c || oneOf "_-.*=&" c) q.

Definition okFragment (f : string) : bool :=
  allChars (fun c => isAlnum c || oneOf "_-" c) f.

(** The form-urlencoded parser on a query with nothing to decode: the
    non-empty [&]-separated pieces, each cut at its first [=]. *)
Definition parseQuery (q : string) : URLSearchParams.t :=
  map (fun piece =>
         let '(name, value) := cut "=" piece in
         (name, match value with Some v => v | None => EmptyString end))
      (filter JS.truthy (JS.split "&" q)).

Definition afterScheme (input : string) : option (string * string) :=
  if JS.startsWith input "https://" then
    Some ("https://", substring 8 (String.length input - 8) input)
  else if JS.startsWith input "http://" then
    Some ("http://", substring 7 (String.length input - 7) input)
  else None.

Definition parse (input : string) : option URL :=
  match afterScheme input with
  | None => None
  | Some (scheme, rest) =>
      let '(beforeFragment, frag) := cut "#" rest in
      let '(beforeQuery, query) := cut "?" beforeFragment in
      let '(host, path) := cut "/" beforeQuery in
      let path := match path with Some p => "/" +++ p | None => "/" end in
      let query := match query with Some q => q | None => EmptyString end in
      if okHost host && okPath path && okQuery query
         && match frag with Some f => okFragment f | None => true end
      then Some {| origin := scheme +++ host;
                   beforePath := scheme +++ host;
                   pathname := path;
                   searchParams := parseQuery query;
                   fragment := frag |}
      else None
  end.

End SimpleURL.

#[export] Instance simpleParser : URLParser := SimpleURL.parse.

(* ================================================================== *)
(** * Vocabulary of the statements *)
(* ================================================================== *)

(** The texts the footer check goes through: the caller's when there are
    any, the built-in ones otherwise. *)
Definition textsToCheck (requiredTexts : option (list string)) : list string :=
  match listOf requiredTexts with
  | [] => defaultCompliance
  | l => l
  end.

(** A required text is found when it occurs, lower-cased, in the lower-cased
    search text. *)
Definition footerTextFound (footerText fullText item : string) : bool :=
  JS.includes (footerSearchText footerText fullText) (JS.toLowerCase item).


(** The display texts of a list of candidates. *)
Definition texts (ctas : list CTA) : list string := map cta_text ctas.

(** [sub] keeps some of the elements of [l], in the order of [l]. *)
Inductive subsequence {A : Type} : list A -> list A -> Prop :=
| subseq_nil : subsequence [] []
| subseq_skip : forall x sub l, subsequence sub l -> subsequence sub (x :: l)
| subseq_keep : forall x sub l, subsequence sub l -> subsequence (x :: sub) (x :: l).

(** A parameter name the stripping is after: equal to an entry of the
    tracking list, or starting with one when case is ignored. *)
Definition isTracking (key : string) : bool :=
  existsb (fun param => String.eqb key param || startsWithParam key param) trackingParams.

(** The tuples the stripping must leave alone. *)
Definition notTracking (kv : string * string) : bool := negb (isTracking (fst kv)).

(** The stripping in the words of the specification: every parameter whose
    name matches an entry of the tracking list, or starts with one, is
    removed, and every other parameter stays. *)
Definition stripSpec (l : URLSearchParams.t) : URLSearchParams.t :=
  filter notTracking l.

(** A candidate with a display text and a destination. *)
Definition usable (c : CTA) : bool := JS.truthy (cta_text c) && JS.truthy (cta_url c).

(** The elements at and below a node, in document order. *)
Fixpoint subelements (n : node) : list node :=
  match n with
  | Text _ => []
  | Element _ _ children =>
      n :: (fix all (l : list node) : list node :=
              match l with
              | [] => []
              | c :: rest => subelements c ++ all rest
              end) children
  end.

(** All the elements of a document. *)
Definition elements (dom : document) : list node := flat_map subelements dom.

Definition attrContains (key value : string) (attribs : list (string * string)) : bool :=
  match getAttr key attribs with
  | Some v => JS.includes v value
  | None => false
  end.

(** A footer-like element: a [footer] element, or one whose class or id
    contains the word footer. *)
Definition footerLike (n : node) : bool :=
  match n with
  | Text _ => false
  | Element name attribs _ =>
      String.eqb name "footer" || attrContains "class" "footer" attribs
      || attrContains "id" "footer" attribs
  end.

(** Induction on nodes, with the hypothesis on all the children. *)
Fixpoint node_induction (P : node -> Prop)
         (HText : forall data, P (Text data))
         (HElement : forall name attribs children,
             Forall P children -> P (Element name attribs children))
         (n : node) : P n :=
  match n with
  | Text data => HText data
  | Element name attribs children =>
      HElement name attribs children
        ((fix all (l : list node) : Forall P l :=
            match l with
            | [] => Forall_nil P
            | c :: rest => Forall_cons c (node_induction P HText HElement c) (all rest)
            end) children)
  end.

(* ================================================================== *)
(** * The comparison [v > 0] *)
(* ================================================================== *)

(** [v > 0] for a value [v] of a semantic result, where [v] is first made
    a number.  A string is read as a numeric literal and rounded to the
    nearest double; an array is read as the string its elements join to; an
    object becomes the string [[object Object]], no number, unless it has a
    [toString] of its own, which is no function here, and then the
    conversion throws. *)
Module ToNumber.

Definition between (lo hi : nat) (c : ascii) : bool :=
  let n := JS.code c in ((lo <=? n) && (n <=? hi))%nat.

Definition isDigit : ascii -> bool := between 48 57.
Definition isHexDigit (c : ascii) : bool := isDigit c || between 65 70 c || between 97 102 c.
Definition isOctalDigit : ascii -> bool := between 48 55.
Definition isBinaryDigit : ascii -> bool := between 48 49.

Fixpoint every (p : ascii -> bool) (s : string) : bool :=
  match s with
  | EmptyString => true
  | String c s' => p c && every p s'
  end.

Fixpoint takeWhile (p : ascii -> bool) (s : string) : string :=
  match s with
  | EmptyString => EmptyString
  | String c s' => if p c then String c (takeWhile p s') else EmptyString
  end.

Fixpoint dropWhile (p : ascii -> bool) (s : string) : string :=
  match s with
  | EmptyString => EmptyString
  | String c s' => if p c then dropWhile p s' else s
  end.

(** The number written by decimal digits. *)
Fixpoint decimalValue (acc : N) (digits : string) : N :=
  match digits with
  | EmptyString => acc
  | String c s' => decimalValue (acc * 10 + N.of_nat (JS.code c - 48)) s'
  end.

Definition splitSign (t : string) : bool * string :=
  match t with
  | String "+" r => (false, r)
  | String "-" r => (true, r)
  | _ => (false, t)
  end.

(** The digits of a literal that opens with [0x], [0o] or [0b], in either
    case of the letter. *)
Definition radixDigits (x : ascii) : option (ascii -> bool) :=
  if Ascii.eqb x "x" || Ascii.eqb x "X" then Some isHexDigit
  else if Ascii.eqb x "o" || Ascii.eqb x "O" then Some isOctalDigit
  else if Ascii.eqb x "b" || Ascii.eqb x "B" then Some isBinaryDigit
  else None.

(** The exponent part that ends a decimal literal: its sign and size;
    [None] when what is left is no exponent part. *)
Definition exponentPart (s : string) : option (bool * N) :=
  match s with
  | EmptyString => Some (false, 0%N)
  | String c r =>
      if Ascii.eqb c "e" || Ascii.eqb c "E" then
        let '(negative, digits) := splitSign r in
        if JS.truthy digits && every isDigit digits
        then Some (negative, decimalValue 0 digits)
        else None
      else None
  end.

(** A decimal literal with an optional sign: [Infinity], or digits with an
    optional fraction and an optional exponent.  With mantissa [m] and
    decimal exponent [up - down] the double nearest to its value is
    positive when the value is above [2^-1075], half the least positive
    double. *)
Definition decimalPositive (t : string) : bool :=
  let '(negative, u) := splitSign t in
  if String.eqb u "Infinity" then negb negative
  else
    let int := takeWhile isDigit u in
    let afterInt := dropWhile isDigit u in
    let '(frac, afterFrac) :=
      match afterInt with
      | String "." r => (takeWhile isDigit r, dropWhile isDigit r)
      | _ => (EmptyString, afterInt)
      end in
    match exponentPart afterFrac with
    | Some (expNegative, e) =>
        let m := decimalValue 0 (int +++ frac) in
        let f := N.of_nat (String.length frac) in
        let up := if expNegative then 0%N else e in
        let down := if expNegative then (e + f)%N else f in
        (JS.truthy int || JS.truthy frac) && negb negative
        && (N.pow 10 down <? m * N.pow 10 up * N.pow 2 1075)%N
    | None => false
    end.

(** [Number(s) > 0] *)
Definition stringPositive (s : string) : bool :=
  match JS.trim s with
  | EmptyString => false
  | String c EmptyString => decimalPositive (String c EmptyString)
  | String c (String x body) as t =>
      match (if Ascii.eqb c "0" then radixDigits x else None) with
      | Some digit =>
          JS.truthy body && every digit body && negb (every (Ascii.eqb "0") body)
      | None => decimalPositive t
      end
  end.

Definition hasKey (key : string) (fields : list (string * jsval)) : bool :=
  existsb (fun kv => String.eqb (fst kv) key) fields.

(** Whether [String(v)] returns. *)
Fixpoint stringifies (v : jsval) : bool :=
  match v with
  | JObj fields => negb (hasKey "toString" fields)
  | JArr items =>
      (fix all (l : list jsval) : bool :=
         match l with
         | [] => true
         | x :: rest => stringifies x && all rest
         end) items
  | _ => true
  end.

(** [Number(String(v)) > 0] for an element [v] of an array that [join]
    writes out, [null] and [undefined] being written as nothing; [None] when
    the conversion throws. *)
Fixpoint joinedPositive (v : jsval) : option bool :=
  match v with
  | JUndefined | JNull | JBool _ => Some false
  | JNum n => Some (0 <? n)%nat
  | JStr s => Some (stringPositive s)
  | JObj fields => if hasKey "toString" fields then None else Some false
  | JArr [] => Some false
  | JArr [x] => joinedPositive x
  | JArr items => if forallb stringifies items then Some false else None
  end.

(** [v > 0]; [None] when the conversion of [v] throws. *)
Definition positive (v : jsval) : option bool :=
  match v with
  | JUndefined | JNull => Some false
  | JBool b => Some b
  | JNum n => Some (0 <? n)%nat
  | JStr s => Some (stringPositive s)
  | JArr _ => joinedPositive v
  | JObj fields => if hasKey "toString" fields then None else Some false
  end.

End ToNumber.

(* ================================================================== *)
(** * The comparison route  (server.js) and the issues of the report *)
(* ================================================================== *)

(** The configuration the route hands to the comparator:
    [{ ctaTexts: config?.ctaTexts || [], ..., ...config }].  A field the
    request sets keeps its value, the spread coming last; a field it leaves
    out gets the default. *)
Definition comparisonConfig (config : option Config) : Config :=
  let field {A : Type} (f : Config -> option A) (default : A) : option A :=
    match config with
    | Some c => match f c with Some v => Some v | None => Some default end
    | None => Some default
    end in
  {| ctaTexts := field ctaTexts [];
     ctaUrls := field ctaUrls [];
     requiredKeywords := field requiredKeywords [];
     unsubscribeText := field unsubscribeText "unsubscribe";
     footerTexts := field footerTexts [] |}.

(** How the call to the semantic comparator ends. *)
Inductive AIOutcome : Type :=
| AIReturned (semanticResults : list (string * jsval))
| AIThrew (message : string).

Definition skipped (reason : string) : jsval :=
  JObj [("status", JStr "SKIPPED"); ("reason", JStr reason)].

(** The semantic result the route passes on, with [aiSkipped]: the
    comparator's answer when the function checks passed and the call
    returned, a placeholder otherwise. *)
Definition routeSemantic (functionPassed : bool) (ai : AIOutcome)
  : list (string * jsval) * bool :=
  if functionPassed then
    match ai with
    | AIReturned semanticResults => (semanticResults, false)
    | AIThrew message =>
        ([ ("error", JStr message);
           ("headings", skipped "AI unavailable");
           ("body_copy", skipped "AI unavailable");
           ("offer", skipped "AI unavailable") ], true)
    end
  else
    ([ ("headings", skipped "Function comparison failed");
       ("body_copy", skipped "Function comparison failed");
       ("offer", skipped "Function comparison failed") ], true).

(** The [overall_status] of the report the route answers with, for the
    email content the fetcher delivered. *)
Definition routeStatus `{URLParser} (documentText : string) (emailContent : EmailContent)
           (config : option Config) (ai : AIOutcome) : Status :=
  let functionResults := compare documentText emailContent (comparisonConfig config) in
  let passed := functionPassed functionResults in
  let '(semanticResults, aiSkipped) := routeSemantic passed ai in
  determineOverallStatus functionResults (Some semanticResults) passed.

(** One entry of the report's [issues]. *)
Record Issue : Type := mkIssue
  { issue_type : string;
    issue_category : string;
    issue_message : jsval;
    issue_severity : string }.

(** [Object.entries(functionResults)], each result reduced to its [issues]. *)
Definition functionEntries (r : FunctionResults) : list (string * option (list string)) :=
  [ ("cta_text", cta_issues (res_cta_text r));
    ("cta_url", cta_issues (res_cta_url r));
    ("unsubscribe", unsub_issues (res_unsubscribe r));
    ("footer", Some (footer_issues (res_footer r)));
    ("keywords", kw_issues (res_keywords r)) ].

Definition functionIssue (category message : string) : Issue :=
  {| issue_type := "function"; issue_category := category;
     issue_message := JStr message; issue_severity := "critical" |}.

Definition semanticIssue (category : string) (message : jsval) : Issue :=
  {| issue_type := "semantic"; issue_category := category;
     issue_message := message; issue_severity := "warning" |}.

(** The first loop of [collectIssues]. *)
Definition functionIssues (r : FunctionResults) : list Issue :=
  flat_map (fun entry =>
              match snd entry with
              | Some issues => map (functionIssue (fst entry)) issues
              | None => []
              end)
           (functionEntries r).

(** [result?.issues && result.issues.length > 0], then
    [result.issues.map(...)], for one entry of the semantic result: the
    messages to report.  [None] stands for a call that throws: a non-empty
    string and an object of positive [length] have no [map] to call, and the
    conversion of an object's [length] to a number can throw by itself. *)
Definition semanticMessages (result : jsval) : option (list jsval) :=
  match optGet result "issues" with
  | JArr items => Some items
  | JUndefined | JNull | JBool _ | JNum _ => Some []
  | JStr s => if JS.truthy s then None else Some []
  | JObj fields =>
      match ToNumber.positive (lookup "length" fields) with
      | Some false => Some []
      | Some true | None => None
      end
  end.

(** The second loop of [collectIssues]. *)
Fixpoint semanticIssues (entries : list (string * jsval)) : option (list Issue) :=
  match entries with
  | [] => Some []
  | (key, result) :: rest =>
      match semanticMessages result, semanticIssues rest with
      | Some messages, Some issues => Some (map (semanticIssue key) messages ++ issues)
      | _, _ => None
      end
  end.

Definition collectIssues (functionResults : FunctionResults)
           (semanticResults : option (list (string * jsval))) : option (list Issue) :=
  match semanticResults with
  | None => Some (functionIssues functionResults)
  | Some sem =>
      match semanticIssues sem with
      | Some issues => Some (functionIssues functionResults ++ issues)
      | None => None
      end
  end.

(* ================================================================== *)
(** * The configuration form of the front end *)
(* ================================================================== *)

(** [value.trim().split('\n').filter(Boolean)], the reading of one text area
    of the configuration form. *)
Definition parseLines (value : string) : list string :=
  filter JS.truthy (JS.split JS.LF (JS.trim value)).

(** [getConfig()], from the values of the four text areas. *)
Definition getConfig (ctaTextsValue ctaUrlsValue keywordsValue footerTextsValue : string)
  : Config :=
  {| ctaTexts := Some (parseLines ctaTextsValue);
     ctaUrls := Some (parseLines ctaUrlsValue);
     requiredKeywords := Some (parseLines keywordsValue);
     unsubscribeText := None;
     footerTexts := Some (parseLines footerTextsValue) |}.

(* ================================================================== *)
(** * Vocabulary of the further statements *)
(* ================================================================== *)

(** An expected label is matched when some candidate's text, lower-cased and
    trimmed, equals it, contains it or is contained in it. *)
Definition ctaTextMatches (emailCTAs : list CTA) (expectedCTA : string) : bool :=
  existsb (fun c => lenientMatch (JS.trim (JS.toLowerCase (cta_text c)))
                                 (JS.trim (JS.toLowerCase expectedCTA)))
          emailCTAs.

Definition ctaUrlMatches `{URLParser} (emailCTAs : list CTA) (expectedUrl : string) : bool :=
  existsb (fun c => lenientMatch (normalizeUrl (cta_cleanUrl c)) (normalizeUrl expectedUrl))
          emailCTAs.

(** [item] occurs in [s], case ignored. *)
Definition occursIn (item s : string) : bool :=
  JS.includes (JS.toLowerCase s) (JS.toLowerCase item).

(** A string of white space only. *)
Definition blank (s : string) : bool := negb (JS.truthy (JS.trim s)).

(** Every code unit of [s] satisfies [p]. *)
Fixpoint allChars (p : ascii -> bool) (s : string) : bool :=
  match s with
  | EmptyString => true
  | String c s' => p c && allChars p s'
  end.

(** A result that reports at least one issue. *)
Definition someIssues (issues : option (list string)) : bool :=
  match issues with
  | Some (_ :: _) => true
  | _ => false
  end.

(** The [issues] of the report the route answers with; [None] when
    [collectIssues] returns no list. *)
Definition routeIssues `{URLParser} (documentText : string) (emailContent : EmailContent)
           (config : option Config) (ai : AIOutcome) : option (list Issue) :=
  let functionResults := compare documentText emailContent (comparisonConfig config) in
  let passed := functionPassed functionResults in
  let '(semanticResults, aiSkipped) := routeSemantic passed ai in
  collectIssues functionResults (Some semanticResults).

(** Either no tuple of [l] is called [k], or the first tuple is. *)
Definition leading (k : string) (l : URLSearchParams.t) : Prop :=
  (forall v, ~ In (k, v) l) \/ exists v rest, l = (k, v) :: rest.

(* ================================================================== *)
(** * Regular-expression replacement *)
(* ================================================================== *)

(** [s.replace(/re/g, replacement)] for the expressions of the program.  Each
    expression is given by its matcher: the length of its match at the start
    of a string, if it matches there.  In each of them a repeated class is
    followed by a code unit outside the class (or by nothing), so the longest
    run of the class is the only candidate and no backtracking into a
    shorter run can succeed; the one exception, the blank-line expression,
    is treated where it is defined. *)
Module Regex.

Definition matcher : Type := string -> option nat.

(** The length of the longest prefix of [s] made of code units in [p]. *)
Fixpoint span (p : ascii -> bool) (s : string) : nat :=
  match s with
  | EmptyString => 0
  | String c s' => if p c then S (span p s') else 0
  end.

Fixpoint drop (n : nat) (s : string) : string :=
  match n, s with
  | 0, _ => s
  | S _, EmptyString => EmptyString
  | S n', String _ s' => drop n' s'
  end.

(** The global replacement: the string is read from the left; where the
    expression matches, the replacement is written and the match is passed
    over ([skip] counts what is left of it); elsewhere the code unit is
    copied.  No expression of the program matches the empty string. *)
Fixpoint replaceAll (m : matcher) (replacement : string) (skip : nat) (s : string) : string :=
  match s with
  | EmptyString => EmptyString
  | String c s' =>
      match skip with
      | S k => replaceAll m replacement k s'
      | 0 =>
          match m s with
          | Some (S n) => replacement +++ replaceAll m replacement n s'
          | _ => String c (replaceAll m replacement 0 s')
          end
      end
  end.

(** A literal. *)
Definition literal (word : string) : matcher :=
  fun s => if JS.startsWith s word then Some (String.length word) else None.

(** [open], then one or more code units of [inner], then [close]. *)
Definition delimited (open : string) (inner : ascii -> bool) (close : string) : matcher :=
  fun s =>
    if JS.startsWith s open then
      let rest := drop (String.length open) s in
      let n := span inner rest in
      if (0 <? n)%nat && JS.startsWith (drop n rest) close
      then Some (String.length open + n + String.length close)
      else None
    else None.

(** One or more code units of [p]: [[...]+]. *)
Definition run (p : ascii -> bool) : matcher :=
  fun s => match span p s with 0 => None | n => Some n end.

(** [n] or more code units of [p]: [[...]{n,}]. *)
Definition runAtLeast (n : nat) (p : ascii -> bool) : matcher :=
  fun s => let k := span p s in if (n <=? k)%nat then Some k else None.

Definition isNot (x : ascii) (c : ascii) : bool := negb (Ascii.eqb c x).

Definition isUpperOrUnderscore (c : ascii) : bool :=
  let n := JS.code c in (((65 <=? n) && (n <=? 90)) || (n =? 95))%nat.

(** [[a-z]] under the flag [i]: the ASCII letters. *)
Definition isLetter (c : ascii) : bool :=
  let n := JS.code c in
  (((65 <=? n) && (n <=? 90)) || ((97 <=? n) && (n <=? 122)))%nat.

(** [/<\/?[a-z]+:[^>]+>/gi] *)
Definition customTag : matcher :=
  fun s =>
    match s with
    | String "<" s1 =>
        let slash := if JS.startsWith s1 "/" then 1 else 0 in
        let s2 := drop slash s1 in
        let n := span isLetter s2 in
        match n, drop n s2 with
        | S _, String ":" s3 =>
            let k := span (isNot ">") s3 in
            if (0 <? k)%nat && JS.startsWith (drop k s3) ">"
            then Some (1 + slash + n + 1 + k + 1)
            else None
        | _, _ => None
        end
    | _ => None
    end.

(** Among the first [n] code units of [s], the position after the last line
    feed. *)
Fixpoint afterLastLF (n : nat) (s : string) : option nat :=
  match n, s with
  | S n', String c s' =>
      match afterLastLF n' s' with
      | Some i => Some (S i)
      | None => if Ascii.eqb c JS.LF then Some 1 else None
      end
  | _, _ => None
  end.

(** [/\n\s*\n/]: a line feed, white space, a line feed.  The white space
    is first taken as far as it goes, and given back down to the last line
    feed of the run, which is where the match ends. *)
Definition blankLines : matcher :=
  fun s =>
    match s with
    | String c rest =>
        if Ascii.eqb c JS.LF then
          match afterLastLF (span JS.isWhiteSpace rest) rest with
          | Some i => Some (S i)
          | None => None
          end
        else None
    | EmptyString => None
    end.

End Regex.

(* ================================================================== *)
(** * More of the extractor: links, text, the whole of [parseEmail] *)
(* ================================================================== *)

(** An entry of [links] has the fields of a CTA candidate. *)
Definition Link : Type := CTA.

Definition linkSelector : selector := [ Compound [Tag "a"; HasAttr "href"] ].

Definition linkOf `{URLParser} (el : node) : Link :=
  {| cta_text := JS.orElse (elText el) "[no text]";
     cta_url := elHref el;
     cta_cleanUrl := stripTrackingParams (elHref el) |}.

(** [href && !href.startsWith('mailto:') && !href.startsWith('tel:')] *)
Definition linkable (el : node) : bool :=
  JS.truthy (elHref el) && negb (JS.startsWith (elHref el) "mailto:")
  && negb (JS.startsWith (elHref el) "tel:").

Definition pushLink `{URLParser} (links : list Link) (el : node) : list Link :=
  if linkable el then links ++ [linkOf el] else links.

Definition extractLinks `{URLParser} (dom : document) : list Link :=
  fold_left pushLink (select linkSelector dom) [].

Definition personalizationPatterns : list Regex.matcher :=
  [ Regex.delimited "{{" (Regex.isNot "}") "}}";
    Regex.delimited "[[" (Regex.isNot "]") "]]";
    Regex.delimited "%" Regex.isUpperOrUnderscore "%";
    Regex.delimited "${" (Regex.isNot "}") "}";
    Regex.customTag ].

(** The white-space normalisation at the end of [extractText]. *)
Definition normalizeWhiteSpace (text : string) : string :=
  JS.trim
    (Regex.replaceAll Regex.blankLines (JS.newline +++ JS.newline) 0
       (Regex.replaceAll (Regex.run JS.isWhiteSpace) " " 0 text)).

Definition extractText (dom : document) : string :=
  let text := JS.orElse (bodyText dom) (textOfAll dom) in
  let text :=
    fold_left (fun text pattern => Regex.replaceAll pattern EmptyString 0 text)
              personalizationPatterns text in
  normalizeWhiteSpace text.

Definition removedTags : selector :=
  [ Compound [Tag "script"]; Compound [Tag "style"]; Compound [Tag "head"];
    Compound [Tag "meta"]; Compound [Tag "link"] ].

(** [$(selector).remove()] below one node: the elements the selector
    selects go, with all they contain. *)
Fixpoint removeIn (sel : selector) (ancestors : list (string * list (string * string)))
         (n : node) : list node :=
  match n with
  | Text _ => [n]
  | Element name attribs children =>
      if existsb (matchComplex ancestors (name, attribs)) sel then []
      else [ Element name attribs
               ((fix removeAll (l : list node) : list node :=
                   match l with
                   | [] => []
                   | c :: rest => removeIn sel ((name, attribs) :: ancestors) c ++ removeAll rest
                   end) children) ]
  end.

Definition remove (sel : selector) (dom : document) : document :=
  flat_map (removeIn sel []) dom.

(** The object [parseEmail] returns. *)
Record ParsedEmail : Type := mkParsed
  { parsed_text : string;
    parsed_html : string;
    parsed_ctaButtons : list CTA;
    parsed_links : list Link;
    parsed_hasUnsubscribe : UnsubscribeSignal;
    parsed_footer : string }.

(** [parseEmail(html)], from the markup and the document [cheerio.load]
    makes of it. *)
Definition parseEmail `{URLParser} (html : string) (loaded : document) : ParsedEmail :=
  let dom := remove removedTags loaded in
  {| parsed_text := extractText dom;
     parsed_html := html;
     parsed_ctaButtons := extractCTAs dom;
     parsed_links := extractLinks dom;
     parsed_hasUnsubscribe := findUnsubscribe dom;
     parsed_footer := extractFooter dom |}.

(** The parsed email as the comparator reads it. *)
Definition asContent (e : ParsedEmail) : EmailContent :=
  {| text := parsed_text e;
     ctaButtons := parsed_ctaButtons e;
     hasUnsubscribe := Some (parsed_hasUnsubscribe e);
     footer := parsed_footer e |}.

(* ================================================================== *)
(** * Text of the reference document  (DocumentParser.normalizeText) *)
(* ================================================================== *)

Definition CR : ascii := ascii_of_nat 13.
Definition TAB : ascii := ascii_of_nat 9.
Definition SPACE : ascii := " "%char.

Definition isSpaceOrTab (c : ascii) : bool := Ascii.eqb c SPACE || Ascii.eqb c TAB.

Definition normalizeText (text : string) : string :=
  let text := Regex.replaceAll (Regex.literal (String CR JS.newline)) JS.newline 0 text in
  let text := Regex.replaceAll (Regex.literal (String CR EmptyString)) JS.newline 0 text in
  let text :=
    Regex.replaceAll (Regex.runAtLeast 3 (Ascii.eqb JS.LF)) (JS.newline +++ JS.newline) 0 text in
  let text := Regex.replaceAll (Regex.run isSpaceOrTab) " " 0 text in
  JS.trim (JS.join JS.newline (map JS.trim (JS.split JS.LF text))).

(** No two neighbouring spaces. *)
Fixpoint singleSpaced (s : string) : bool :=
  match s with
  | String a ((String b _) as rest) =>
      negb (Ascii.eqb a SPACE && Ascii.eqb b SPACE) && singleSpaced rest
  | _ => true
  end.

(** The only white space allowed: the plain space. *)
Definition spaceOrInk (c : ascii) : bool := negb (JS.isWhiteSpace c) || Ascii.eqb c SPACE.

(** The first code unit, if any, is no space. *)
Definition inkFirst (s : string) : bool :=
  match s with
  | EmptyString => true
  | String c _ => negb (Ascii.eqb c SPACE)
  end.

(** The items of an [issues] array; nothing for any other value. *)
Definition issueItems (v : jsval) : list jsval :=
  match v with
  | JArr items => items
  | _ => []
  end.

(** The semantic issues of a report: entry by entry of the semantic result,
    one issue for each item of the entry's [issues] array, under the entry's
    key. *)
Definition semanticTail (semanticResults : option (list (string * jsval))) : list Issue :=
  match semanticResults with
  | None => []
  | Some sem =>
      flat_map (fun entry => map (semanticIssue (fst entry))
                                 (issueItems (optGet (snd entry) "issues")))
               sem
  end.

(** An [issues] value that is an array, or falsy. *)
Definition listOrNothing (v : jsval) : bool :=
  match v with
  | JArr _ => true
  | _ => negb (truthy v)
  end.

(** The issues of one check, under the name of the check. *)
Definition tagged (category : string) (messages : list string) : list Issue :=
  map (functionIssue category) messages.

(* ================================================================== *)
(** * Lemmas on the string primitives and the loops *)
(* ================================================================== *)

Section PartitionLoop.

Context {A B C : Type} (test : A -> bool) (hit : A -> B) (miss : A -> C).

Lemma fold_pushBy : forall xs acc,
  fold_left (pushBy test hit miss) xs acc =
  (fst acc ++ map hit (filter test xs),
   snd acc ++ map miss (filter (fun x => negb (test x)) xs)).
Proof.
  induction xs as [|x xs IH]; intros [hits misses]; simpl.
  - now rewrite !app_nil_r.
  - rewrite IH. unfold pushBy. destruct (test x); simpl;
      now rewrite <- ?app_assoc.
Qed.

Lemma partitionLoop_eq : forall xs,
  partitionLoop test hit miss xs =
  (map hit (filter test xs), map miss (filter (fun x => negb (test x)) xs)).
Proof. intros xs. unfold partitionLoop. now rewrite fold_pushBy. Qed.

Lemma no_miss_iff : forall xs,
  map miss (filter (fun x => negb (test x)) xs) = [] <->
  (forall x, In x xs -> test x = true).
Proof.
  induction xs as [|x xs IH]; simpl.
  - split; [intros _ y [] | reflexivity].
  - destruct (test x) eqn:E; simpl.
    + rewrite IH. split.
      * intros H y [<- | Hy]; auto.
      * intros H y Hy. apply H. now right.
    + split; [discriminate |].
      intros H. specialize (H x (or_introl eq_refl)). congruence.
Qed.

Lemma no_hit_iff : forall xs,
  map hit (filter test xs) = [] <-> (forall x, In x xs -> test x = false).
Proof.
  induction xs as [|x xs IH]; simpl.
  - split; [intros _ y [] | reflexivity].
  - destruct (test x) eqn:E; simpl.
    + split; [discriminate |].
      intros H. specialize (H x (or_introl eq_refl)). congruence.
    + rewrite IH. split.
      * intros H y [<- | Hy]; auto.
      * intros H y Hy. apply H. now right.
Qed.

End PartitionLoop.

Lemma statusOfIssues_PASS : forall (A : Type) (issues : list A),
  statusOfIssues issues = PASS <-> issues = [].
Proof. intros A [|i issues]; simpl; split; congruence. Qed.

Lemma length_zero_eqb : forall (A : Type) (l : list A),
  (List.length l =? 0)%nat = true <-> l = [].
Proof. intros A [|x l]; simpl; split; congruence. Qed.

Lemma checkFooter_required : forall footerText fullText requiredTexts,
  footer_required (checkFooter footerText fullText requiredTexts) =
  textsToCheck requiredTexts.
Proof.
  intros ft full req. unfold checkFooter, textsToCheck.
  rewrite partitionLoop_eq.
  destruct (listOf req) as [|r rs]; simpl;
    match goal with |- context [if ?b then _ else _] => destruct b end;
    reflexivity.
Qed.

Lemma checkFooter_PASS_iff : forall footerText fullText requiredTexts,
  footer_status (checkFooter footerText fullText requiredTexts) = PASS <->
  (forall item, In item (textsToCheck requiredTexts) ->
                footerTextFound footerText fullText item = true).
Proof.
  intros ft full req. unfold checkFooter, textsToCheck, footerTextFound.
  rewrite partitionLoop_eq.
  destruct (listOf req) as [|r rs] eqn:E.
  - cbn [List.length Nat.ltb Nat.leb andb].
    rewrite andb_false_r.
    cbn [footer_status]. rewrite statusOfIssues_PASS. apply no_miss_iff.
  - cbn [List.length Nat.ltb Nat.leb andb].
    rewrite andb_true_r.
    match goal with |- context [if ?b then _ else _] => destruct b eqn:L end;
      cbn [footer_status].
    + apply length_zero_eqb in L.
      rewrite no_hit_iff in L.
      split; [discriminate |].
      intros H. specialize (H r (or_introl eq_refl)).
      specialize (L r (or_introl eq_refl)). congruence.
    + rewrite statusOfIssues_PASS. apply no_miss_iff.
Qed.

Lemma checkFooter_none_found : forall footerText fullText requiredTexts,
  listOf requiredTexts <> [] ->
  (forall item, In item (listOf requiredTexts) ->
                footerTextFound footerText fullText item = false) ->
  footer_status (checkFooter footerText fullText requiredTexts) = FAIL /\
  footer_found (checkFooter footerText fullText requiredTexts) = [].
Proof.
  intros ft full req Hne Hnone. unfold checkFooter.
  rewrite partitionLoop_eq.
  destruct (listOf req) as [|r rs] eqn:E; [congruence |].
  cbn [List.length Nat.ltb Nat.leb andb]. rewrite andb_true_r.
  assert (L : map (fun t : string => t)
                (filter (fun t => JS.includes (footerSearchText ft full) (JS.toLowerCase t))
                        (r :: rs)) = []).
  { apply no_hit_iff. exact Hnone. }
  rewrite L. cbn. split; reflexivity.
Qed.

(* ================================================================== *)
(** * The overall status of the report *)
(* ================================================================== *)







(** For a boolean flag, falsy means [false]. *)
Lemma overall_match_false : forall b, truthy (JBool b) = false <-> b = false.
Proof. intros b. simpl. tauto. Qed.

(** Gating as the server drives it: one failed check among the five makes
    the report FAIL, whatever the semantic result says. *)
Lemma gating : forall (r : FunctionResults) sem,
  (cta_status (res_cta_text r) = FAIL \/ cta_status (res_cta_url r) = FAIL \/
   unsub_status (res_unsubscribe r) = FAIL \/ footer_status (res_footer r) = FAIL \/
   kw_status (res_keywords r) = FAIL) ->
  determineOverallStatus r sem (functionPassed r) = FAIL.
Proof.
  intros r sem H.
  assert (E : functionPassed r = false).
  { unfold functionPassed. cbn [forallb].
    destruct H as [H | [H | [H | [H | H]]]]; rewrite H; cbn;
      rewrite ?andb_false_r; reflexivity. }
  rewrite E. reflexivity.
Qed.

(* ================================================================== *)
(** * The footer check *)
(* ================================================================== *)

(** C2.  With no required footer texts configured, the footer check goes
    through the three built-in texts, and it passes exactly when each of them
    occurs, case ignored, in the footer text followed by a space and the full
    text of the email.  It is no vacuous pass: on an empty email it fails. *)
Theorem checkFooter_default :
  forall (footerText fullText : string) (requiredTexts : option (list string)),
    listOf requiredTexts = [] ->
    let r := checkFooter footerText fullText requiredTexts in
    footer_required r = [ "all rights reserved"; "privacy policy"; "terms" ] /\
    (footer_status r = PASS <->
     forall item, In item [ "all rights reserved"; "privacy policy"; "terms" ] ->
       JS.includes (JS.toLowerCase (footerText +++ " " +++ fullText))
                   (JS.toLowerCase item) = true) /\
    footer_status (checkFooter "" "" requiredTexts) = FAIL.
Proof.
  intros ft full req Hempty r. subst r.
  rewrite checkFooter_required, checkFooter_PASS_iff.
  unfold textsToCheck. rewrite Hempty.
  split; [reflexivity |]. split; [reflexivity |].
  unfold checkFooter. rewrite Hempty. reflexivity.
Qed.

Lemma checkFooter_default_witness :
  listOf (Some []) = [] /\
  footer_status (checkFooter "Terms apply. All Rights Reserved." "See our Privacy Policy"
                             (Some [])) = PASS.
Proof.
  split; [reflexivity |].
  apply (checkFooter_default "Terms apply. All Rights Reserved." "See our Privacy Policy"
                             (Some []) eq_refl).
  intros item [<- | [<- | [<- | []]]]; reflexivity.
Defined.

(** C3, as the program has it.  With an explicit, non-empty list the footer
    check fails when none of the required texts is found, and the list of
    found texts is then empty; it passes exactly when every required text is
    found, so one match among several does not make it pass.  With the
    built-in texts, too, it passes only when each of them is found. *)
Theorem checkFooter_explicit :
  forall (footerText fullText : string) (requiredTexts : list string),
    requiredTexts <> [] ->
    let r := checkFooter footerText fullText (Some requiredTexts) in
    footer_required r = requiredTexts /\
    ((forall item, In item requiredTexts ->
        footerTextFound footerText fullText item = false) ->
     footer_status r = FAIL /\ footer_found r = []) /\
    (footer_status r = PASS <->
     forall item, In item requiredTexts ->
       footerTextFound footerText fullText item = true) /\
    (footer_status (checkFooter footerText fullText None) = PASS ->
     forall item, In item defaultCompliance ->
       footerTextFound footerText fullText item = true).
Proof.
  intros ft full req Hne r. subst r.
  assert (T : textsToCheck (Some req) = req).
  { unfold textsToCheck. simpl. destruct req; congruence. }
  rewrite checkFooter_required, checkFooter_PASS_iff, T.
  split; [reflexivity |]. split; [| split].
  - intros Hnone. apply checkFooter_none_found; assumption.
  - reflexivity.
  - intros H. destruct (checkFooter_PASS_iff ft full None) as [K _]. exact (K H).
Qed.

Lemma checkFooter_explicit_witness :
  [ "Privacy Policy" ] <> [] /\
  footer_status (checkFooter "our privacy policy" "" (Some [ "Privacy Policy" ])) = PASS.
Proof.
  split; [discriminate |].
  apply (checkFooter_explicit "our privacy policy" "" [ "Privacy Policy" ]);
    [discriminate |].
  intros item [<- | []]. reflexivity.
Defined.

(** One required text of two is found, and the check fails all the same:
    an explicit list is not satisfied by a single match. *)
Lemma checkFooter_one_match_fails :
  ~ (forall (footerText fullText : string) (requiredTexts : list string),
       requiredTexts <> [] ->
       (footer_status (checkFooter footerText fullText (Some requiredTexts)) = FAIL <->
        forall item, In item requiredTexts ->
          footerTextFound footerText fullText item = false)).
Proof.
  intros softened.
  destruct (softened "" "privacy policy" [ "privacy policy"; "refund" ]) as [H _];
    [discriminate |].
  specialize (H eq_refl "privacy policy" (or_introl eq_refl)).
  discriminate H.
Qed.

(* ================================================================== *)
(** * Unconfigured checks *)
(* ================================================================== *)

(** C4.  When no CTA texts, no CTA URLs and no keywords are configured (the
    list is empty or absent), the CTA-text check, the CTA-URL check and the
    keywords check pass, whatever the email content, the reference text and
    the URL parser. *)
Theorem unconfigured_checks_pass :
  forall (parser : URLParser) (documentText : string) (emailContent : EmailContent)
         (config : Config),
    listOf (ctaTexts config) = [] ->
    listOf (ctaUrls config) = [] ->
    listOf (requiredKeywords config) = [] ->
    let r := compare documentText emailContent config in
    cta_status (res_cta_text r) = PASS /\
    cta_status (res_cta_url r) = PASS /\
    kw_status (res_keywords r) = PASS.
Proof.
  intros parser doc email config Ht Hu Hk r. subst r. unfold compare. cbn.
  unfold compareCTAText, compareCTAUrls, checkKeywords.
  destruct (ctaTexts config) as [[|]|]; try discriminate Ht;
  destruct (ctaUrls config) as [[|]|]; try discriminate Hu;
  destruct (requiredKeywords config) as [[|]|]; try discriminate Hk;
  cbn; auto.
Qed.

Lemma unconfigured_checks_pass_witness :
  let config := {| ctaTexts := Some []; ctaUrls := None; requiredKeywords := Some [];
                   unsubscribeText := None; footerTexts := None |} in
  let email := {| text := "Hello"; ctaButtons := []; hasUnsubscribe := None;
                  footer := "" |} in
  cta_status (res_cta_text (compare "50% off" email config)) = PASS /\
  cta_status (res_cta_url (compare "50% off" email config)) = PASS /\
  kw_status (res_keywords (compare "50% off" email config)) = PASS.
Proof.
  intros config email.
  apply (unconfigured_checks_pass simpleParser "50% off" email config);
    reflexivity.
Defined.

(* ================================================================== *)
(** * The unsubscribe check *)
(* ================================================================== *)

Lemma checkUnsubscribe_found : forall emailContent requiredText,
  signalField found emailContent = true ->
  unsub_status (checkUnsubscribe emailContent requiredText) = PASS.
Proof.
  intros email req H. unfold checkUnsubscribe. rewrite H. reflexivity.
Qed.

(** C8.  When the signal extracted from the document has a link match, the
    unsubscribe check passes for every text of the email and every configured
    unsubscribe text, so also when the text holds neither the word
    unsubscribe nor the configured text.  A text match alone passes too: each
    of the two signals is enough. *)
Theorem checkUnsubscribe_link_or_text :
  forall (dom : document) (emailContent : EmailContent) (requiredText : option string),
    hasUnsubscribe emailContent = Some (findUnsubscribe dom) ->
    hasLink (findUnsubscribe dom) = true \/ hasText (findUnsubscribe dom) = true ->
    unsub_status (checkUnsubscribe emailContent requiredText) = PASS.
Proof.
  intros dom email req Hsig H.
  apply checkUnsubscribe_found.
  unfold signalField. rewrite Hsig.
  unfold findUnsubscribe in *. cbn [found hasLink hasText] in *.
  destruct H as [H | H]; rewrite H; auto using orb_true_r.
Qed.

Lemma checkUnsubscribe_link_or_text_witness :
  let dom := [ Element "body" []
                 [ Element "a" [("href", "https://x.test/optout")]
                     [ Text "Manage preferences" ] ] ] in
  let email := {| text := "Manage preferences"; ctaButtons := [];
                  hasUnsubscribe := Some (findUnsubscribe dom); footer := "" |} in
  hasLink (findUnsubscribe dom) = true /\
  hasText (findUnsubscribe dom) = false /\
  JS.includes (JS.toLowerCase (text email)) "unsubscribe" = false /\
  unsub_status (checkUnsubscribe email None) = PASS.
Proof.
  intros dom email.
  split; [reflexivity |]. split; [reflexivity |]. split; [reflexivity |].
  apply (checkUnsubscribe_link_or_text dom email None eq_refl).
  left. reflexivity.
Defined.

(* ================================================================== *)
(** * Tracking-parameter stripping *)
(* ================================================================== *)

Lemma delete_length : forall name l,
  List.length (URLSearchParams.delete name l) <= List.length l.
Proof. intros name l. apply filter_length_le. Qed.

Lemma delete_In : forall name l kv,
  In kv (URLSearchParams.delete name l) <-> In kv l /\ fst kv <> name.
Proof.
  intros name l kv. unfold URLSearchParams.delete. rewrite filter_In.
  rewrite negb_true_iff, String.eqb_neq. reflexivity.
Qed.

(** The loop over the search parameters ends: once the fuel covers what is
    left of the list beyond the index, more fuel changes nothing. *)
Lemma deleteWhileIterating_fuel : forall fuel param index l extra,
  List.length l - index <= fuel ->
  deleteWhileIterating (fuel + extra) param index l =
  deleteWhileIterating fuel param index l.
Proof.
  induction fuel as [|fuel IH]; intros param index l extra Hlen.
  - assert (E : nth_error l index = None) by (apply nth_error_None; lia).
    destruct extra; simpl; [reflexivity | now rewrite E].
  - simpl. destruct (nth_error l index) as [[key value]|] eqn:E; [| reflexivity].
    apply IH.
    destruct (startsWithParam key param); [pose proof (delete_length key l) |]; lia.
Qed.

Lemma stripParam_fuel : forall l param extra,
  let l' := URLSearchParams.delete param l in
  deleteWhileIterating (List.length l' + extra) param 0 l' = stripParam l param.
Proof.
  intros l param extra l'. unfold stripParam. fold l'.
  apply deleteWhileIterating_fuel. lia.
Qed.

Lemma deleteWhileIterating_In : forall fuel param index l kv,
  In kv (deleteWhileIterating fuel param index l) -> In kv l.
Proof.
  induction fuel as [|fuel IH]; intros param index l kv H; simpl in H; [exact H |].
  destruct (nth_error l index) as [[key value]|]; [| exact H].
  apply IH in H. destruct (startsWithParam key param); [| exact H].
  apply delete_In in H. tauto.
Qed.

Lemma stripParam_In : forall l param kv,
  In kv (stripParam l param) -> In kv l /\ fst kv <> param.
Proof.
  intros l param kv H. unfold stripParam in H.
  apply deleteWhileIterating_In in H. now apply delete_In in H.
Qed.

Lemma fold_stripParam_In : forall params l kv,
  In kv (fold_left stripParam params l) -> In kv l /\ ~ In (fst kv) params.
Proof.
  induction params as [|p params IH]; intros l kv H; simpl in *.
  - tauto.
  - apply IH in H. destruct H as [H Hrest]. apply stripParam_In in H.
    intuition congruence.
Qed.

(** What the stripping does achieve, first half: no parameter that carries
    the exact name of a tracking entry is left, and nothing is added. *)
Lemma stripAll_In : forall l kv,
  In kv (stripAll l) -> In kv l /\ ~ In (fst kv) trackingParams.
Proof. intros l kv. apply fold_stripParam_In. Qed.

Lemma isTracking_prefix : forall key param,
  In param trackingParams -> startsWithParam key param = true -> isTracking key = true.
Proof.
  intros key param Hin Hp. unfold isTracking. apply existsb_exists.
  exists param. split; [exact Hin |]. rewrite Hp. apply orb_true_r.
Qed.

Lemma isTracking_exact : forall param,
  In param trackingParams -> isTracking param = true.
Proof.
  intros param Hin. unfold isTracking. apply existsb_exists.
  exists param. split; [exact Hin |]. now rewrite String.eqb_refl.
Qed.

Lemma filter_delete_tracking : forall key l,
  isTracking key = true ->
  filter notTracking (URLSearchParams.delete key l) = filter notTracking l.
Proof.
  intros key l Hkey. unfold URLSearchParams.delete.
  induction l as [|[k v] l IH]; [reflexivity |].
  cbn [filter fst].
  destruct (String.eqb k key) eqn:E; cbn [negb].
  - apply String.eqb_eq in E. subst k.
    unfold notTracking at 2. cbn [fst]. rewrite Hkey. cbn [negb]. exact IH.
  - cbn [filter]. destruct (notTracking (k, v)); now rewrite IH.
Qed.

Lemma filter_deleteWhileIterating : forall fuel param index l,
  In param trackingParams ->
  filter notTracking (deleteWhileIterating fuel param index l) = filter notTracking l.
Proof.
  induction fuel as [|fuel IH]; intros param index l Hin; simpl; [reflexivity |].
  destruct (nth_error l index) as [[key value]|]; [| reflexivity].
  rewrite IH by exact Hin.
  destruct (startsWithParam key param) eqn:E; [| reflexivity].
  apply filter_delete_tracking. now apply isTracking_prefix with param.
Qed.

Lemma filter_fold_stripParam : forall params l,
  (forall p, In p params -> In p trackingParams) ->
  filter notTracking (fold_left stripParam params l) = filter notTracking l.
Proof.
  induction params as [|p params IH]; intros l Hsub; simpl; [reflexivity |].
  rewrite IH by (intros q Hq; apply Hsub; now right).
  unfold stripParam.
  rewrite filter_deleteWhileIterating by (apply Hsub; now left).
  apply filter_delete_tracking, isTracking_exact, Hsub. now left.
Qed.

(** Second half: the parameters that are no tracking parameters are all
    kept, with their values and in their order. *)
Lemma stripAll_keeps_others : forall l,
  filter notTracking (stripAll l) = filter notTracking l.
Proof. intros l. apply filter_fold_stripParam. auto. Qed.

(** The stripping of the specification never takes more than the program
    leaves, and a second pass of it finds nothing to do. *)
Lemma stripSpec_of_stripAll : forall l, stripSpec (stripAll l) = stripSpec l.
Proof. exact stripAll_keeps_others. Qed.

Lemma stripSpec_idempotent : forall l, stripSpec (stripSpec l) = stripSpec l.
Proof.
  intros l. unfold stripSpec. induction l as [|kv l IH]; [reflexivity |].
  cbn [filter]. destruct (notTracking kv) eqn:E; [| exact IH].
  cbn [filter]. now rewrite E, IH.
Qed.

(** The example of the specification. *)
Lemma stripTrackingParams_example :
  stripTrackingParams "https://x.test/p?utm_source=a&id=1" = "https://x.test/p?id=1".
Proof. vm_compute. reflexivity. Qed.

(** C5, as the program has it.  [stripTrackingParams] returns a string for
    every input: the one operation that throws, [new URL], is inside the
    [try], and the loops end ([deleteWhileIterating_fuel]).  On an input that
    does not parse it returns that very input, its case and its trailing
    slash untouched. *)
Theorem stripTrackingParams_unparseable :
  forall (parser : URLParser) (url : string),
    newURL url = None -> stripTrackingParams url = url.
Proof.
  intros parser url H. unfold stripTrackingParams. now rewrite H.
Qed.

Lemma stripTrackingParams_unparseable_witness :
  newURL "Not A Url/" = None /\ stripTrackingParams "Not A Url/" = "Not A Url/".
Proof.
  split; [vm_compute; reflexivity |].
  apply (stripTrackingParams_unparseable simpleParser "Not A Url/").
  vm_compute; reflexivity.
Defined.

(** The input has no scheme, so it does not parse; it comes back as it is,
    not lower-cased and with its trailing slash. *)
Lemma stripTrackingParams_fallback_unchanged :
  newURL "Not A Url/" = None /\
  stripTrackingParams "Not A Url/" = "Not A Url/" /\
  stripTrackingParams "Not A Url/" <> stripTrailingSlash (JS.toLowerCase "Not A Url/").
Proof.
  split; [vm_compute; reflexivity |].
  split; vm_compute; [reflexivity | discriminate].
Qed.

(** C6 at the failing input.  [utm_source_x] is deleted while the iterator
    stands on it; [utm_source_y] moves into its place, the iterator steps
    past it, and it stays in the result although its name starts with
    [utm_source]. *)
Theorem stripTrackingParams_skips_next :
  newURL "https://x.test/p?utm_source_x=1&utm_source_y=2"
  = Some {| origin := "https://x.test"; beforePath := "https://x.test";
            pathname := "/p";
            searchParams := [("utm_source_x", "1"); ("utm_source_y", "2")];
            fragment := None |} /\
  stripAll [("utm_source_x", "1"); ("utm_source_y", "2")] = [("utm_source_y", "2")] /\
  stripSpec [("utm_source_x", "1"); ("utm_source_y", "2")] = [] /\
  stripTrackingParams "https://x.test/p?utm_source_x=1&utm_source_y=2"
  = "https://x.test/p?utm_source_y=2" /\
  startsWithParam "utm_source_y" "utm_source" = true /\
  isTracking "utm_source_y" = true.
Proof. repeat split; vm_compute; reflexivity. Qed.

(** C7 at the failing input.  The parameter that the first call steps over
    is the first one the second call meets, and the second call deletes it. *)
Theorem stripTrackingParams_not_idempotent :
  let u := "https://x.test/p?utm_source_x=1&utm_source_y=2" in
  stripTrackingParams u = "https://x.test/p?utm_source_y=2" /\
  stripTrackingParams (stripTrackingParams u) = "https://x.test/p" /\
  stripTrackingParams (stripTrackingParams u) <> stripTrackingParams u.
Proof.
  cbv zeta. split; [vm_compute; reflexivity |].
  split; vm_compute; [reflexivity | discriminate].
Qed.

(* ================================================================== *)
(** * CTA candidates *)
(* ================================================================== *)

Lemma subsequence_refl : forall (A : Type) (l : list A), subsequence l l.
Proof. induction l; constructor; assumption. Qed.

Lemma subsequence_filter : forall (A : Type) (p : A -> bool) (l : list A),
  subsequence (filter p l) l.
Proof.
  induction l as [|x l IH]; simpl; [constructor |].
  destruct (p x); constructor; assumption.
Qed.

Lemma hasText_in_false : forall text ctas,
  hasText_in text ctas = false <-> ~ In text (texts ctas).
Proof.
  intros text ctas. unfold hasText_in, texts.
  induction ctas as [|c ctas IH]; simpl; [tauto |].
  rewrite orb_false_iff, IH, String.eqb_neq. tauto.
Qed.

Section Candidates.

Context {parser : URLParser}.

Lemma fold_pushButton : forall els ctas,
  fold_left pushButton els ctas = ctas ++ filter usable (map candidate els).
Proof.
  induction els as [|el els IH]; intros ctas; simpl.
  - now rewrite app_nil_r.
  - rewrite IH. unfold pushButton, usable. cbn [candidate cta_text cta_url].
    destruct (JS.truthy (elText el) && JS.truthy (elHref el)).
    + now rewrite <- app_assoc.
    + reflexivity.
Qed.

(** The second pass adds candidates in the order of the anchors, each with a
    display text that no earlier entry of the list has. *)
Lemma fold_pushProminent : forall els ctas,
  exists added,
    fold_left pushProminent els ctas = ctas ++ added /\
    subsequence added (map candidate els) /\
    NoDup (texts added) /\
    (forall c, In c added ->
       ~ In (cta_text c) (texts ctas) /\ usable c = true /\
       ctaKeywords (cta_text c) = true).
Proof.
  induction els as [|el els IH]; intros ctas; simpl.
  - exists []. rewrite app_nil_r.
    split; [reflexivity |]. split; [constructor |]. split; [constructor |].
    intros c [].
  - unfold pushProminent at 2.
    destruct (JS.truthy (elText el) && JS.truthy (elHref el)
              && ctaKeywords (elText el) && negb (hasText_in (elText el) ctas)) eqn:E.
    + apply andb_prop in E. destruct E as [E Hnew].
      apply andb_prop in E. destruct E as [Huse Hkw].
      apply negb_true_iff, hasText_in_false in Hnew.
      destruct (IH (ctas ++ [candidate el])) as (added & Heq & Hsub & Hnd & Hall).
      exists (candidate el :: added). rewrite Heq, <- app_assoc.
      split; [reflexivity |]. split; [now constructor |]. split.
      * cbn [texts map]. constructor; [| exact Hnd].
        intros Hin. apply in_map_iff in Hin. destruct Hin as (c0 & Hc & Hin).
        destruct (Hall c0 Hin) as (Hfresh & _). apply Hfresh.
        unfold texts. rewrite map_app, in_app_iff. right. left. symmetry. exact Hc.
      * intros c [<- | Hin].
        -- repeat split; assumption.
        -- destruct (Hall c Hin) as (Hfresh & Hu & Hk).
           repeat split; try assumption.
           intros Hold. apply Hfresh. unfold texts in *.
           rewrite map_app, in_app_iff. now left.
    + destruct (IH ctas) as (added & Heq & Hsub & Hnd & Hall).
      exists added. repeat split; try assumption; try (now constructor);
        now apply Hall.
Qed.

(** C9, as the program has it.  The candidates are those of the first pass,
    every button-like anchor with a text and a destination, in document
    order, followed by those of the second pass, in document order.  The
    de-duplication is the second pass's: none of its candidates has the
    display text of another one of them or of a candidate of the first
    pass.  Two candidates of the first pass may share their text. *)
Theorem extractCTAs_spec :
  forall dom : document,
  exists buttons prominent : list CTA,
    extractCTAs dom = buttons ++ prominent /\
    buttons = filter usable (map candidate (select ctaSelectors dom)) /\
    subsequence buttons (map candidate (select ctaSelectors dom)) /\
    subsequence prominent (map candidate (select [Compound [Tag "a"]] dom)) /\
    NoDup (texts prominent) /\
    (forall c, In c prominent ->
       ~ In (cta_text c) (texts buttons) /\ ctaKeywords (cta_text c) = true).
Proof.
  intros dom. unfold extractCTAs. rewrite fold_pushButton. cbn [app].
  destruct (fold_pushProminent (select [Compound [Tag "a"]] dom)
              (filter usable (map candidate (select ctaSelectors dom))))
    as (added & Heq & Hsub & Hnd & Hall).
  exists (filter usable (map candidate (select ctaSelectors dom))), added.
  split; [exact Heq |]. split; [reflexivity |].
  split; [apply subsequence_filter |]. split; [exact Hsub |].
  split; [exact Hnd |].
  intros c Hin. destruct (Hall c Hin) as (H1 & _ & H3). auto.
Qed.

End Candidates.

(** Two buttons with the same label are both candidates. *)
Lemma extractCTAs_duplicate_texts :
  let dom :=
    [ Element "body" []
        [ Element "a" [("class", "btn"); ("href", "https://x.test/a")] [ Text "Shop Now" ];
          Element "a" [("class", "btn"); ("href", "https://x.test/b")] [ Text "Shop Now" ] ] ] in
  extractCTAs dom =
    [ {| cta_text := "Shop Now"; cta_url := "https://x.test/a";
         cta_cleanUrl := "https://x.test/a" |};
      {| cta_text := "Shop Now"; cta_url := "https://x.test/b";
         cta_cleanUrl := "https://x.test/b" |} ] /\
  ~ NoDup (texts (extractCTAs dom)).
Proof.
  cbv zeta.
  match goal with |- ?a = ?b /\ _ => assert (E : a = b) by (vm_compute; reflexivity) end.
  split; [exact E |]. rewrite E. cbn [texts map cta_text].
  intros H. inversion H as [|x l Hnotin _]; subst. apply Hnotin. now left.
Qed.

(* ================================================================== *)
(** * The footer of the email *)
(* ================================================================== *)

Lemma selectIn_Element : forall sel ancestors name attribs children,
  selectIn sel ancestors (Element name attribs children) =
  (if existsb (matchComplex ancestors (name, attribs)) sel
   then [Element name attribs children] else []) ++
  flat_map (selectIn sel ((name, attribs) :: ancestors)) children.
Proof.
  intros sel ancestors name attribs children. reflexivity.
Qed.

Lemma subelements_Element : forall name attribs children,
  subelements (Element name attribs children) =
  Element name attribs children :: flat_map subelements children.
Proof.
  intros name attribs children. reflexivity.
Qed.

(** What a selector selects is an element of the tree, and it matches one
    of the alternatives of the selector. *)
Lemma selectIn_sound : forall sel n ancestors x,
  In x (selectIn sel ancestors n) ->
  In x (subelements n) /\
  exists name attribs children ancestors',
    x = Element name attribs children /\
    existsb (matchComplex ancestors' (name, attribs)) sel = true.
Proof.
  intros sel n. induction n as [data | name attribs children IH] using node_induction;
    intros ancestors x Hin.
  - destruct Hin.
  - rewrite selectIn_Element in Hin. rewrite subelements_Element.
    apply in_app_or in Hin. destruct Hin as [Hin | Hin].
    + destruct (existsb (matchComplex ancestors (name, attribs)) sel) eqn:E;
        [| destruct Hin].
      destruct Hin as [<- | []]. split; [now left |].
      exists name, attribs, children, ancestors. auto.
    + apply in_flat_map in Hin. destruct Hin as (c & Hc & Hin).
      rewrite Forall_forall in IH.
      destruct (IH c Hc _ _ Hin) as (Hsub & Hm).
      split; [| exact Hm]. right. apply in_flat_map. exists c. auto.
Qed.

Lemma select_sound : forall sel dom x,
  In x (select sel dom) ->
  In x (elements dom) /\
  exists name attribs children ancestors,
    x = Element name attribs children /\
    existsb (matchComplex ancestors (name, attribs)) sel = true.
Proof.
  intros sel dom x Hin. unfold select in Hin. apply in_flat_map in Hin.
  destruct Hin as (n & Hn & Hin). apply selectIn_sound in Hin.
  destruct Hin as (Hsub & Hm). split; [| exact Hm].
  unfold elements. apply in_flat_map. exists n. auto.
Qed.

Lemma tokens_head : forall v, exists t ts, tokens v = t :: ts /\ JS.startsWith v t = true.
Proof.
  induction v as [|c v IH]; simpl.
  - exists "", []. auto.
  - destruct (JS.isWhiteSpace c).
    + exists "", (tokens v). auto.
    + destruct IH as (t & ts & -> & Hp). exists (String c t), ts.
      split; [reflexivity |]. simpl. now rewrite Ascii.eqb_refl.
Qed.

(** A word of an attribute value occurs in that value. *)
Lemma tokens_includes : forall v w, In w (tokens v) -> JS.includes v w = true.
Proof.
  induction v as [|c v IH]; intros w Hin.
  - destruct Hin as [<- | []]. reflexivity.
  - cbn [tokens] in Hin. cbn [JS.includes].
    destruct (JS.isWhiteSpace c).
    + destruct Hin as [<- | Hin]; [reflexivity |].
      rewrite (IH w Hin). apply orb_true_r.
    + destruct (tokens_head v) as (t & ts & E & Hp). rewrite E in *.
      destruct Hin as [<- | Hin].
      * cbn [JS.startsWith]. now rewrite Ascii.eqb_refl, Hp.
      * rewrite (IH w (or_intror Hin)). apply orb_true_r.
Qed.

Lemma inb_In : forall x l, inb x l = true -> In x l.
Proof.
  intros x l H. unfold inb in H. apply existsb_exists in H.
  destruct H as (y & Hy & E). apply String.eqb_eq in E. now subst.
Qed.

(** Each of the footer selectors selects footer-like elements only. *)
Lemma footerSelectors_footerLike : forall sel ancestors name attribs children,
  In sel footerSelectors ->
  existsb (matchComplex ancestors (name, attribs)) sel = true ->
  footerLike (Element name attribs children) = true.
Proof.
  intros sel ancestors name attribs children Hsel Hm.
  cbn [footerLike]. unfold attrContains.
  destruct Hsel as [<- | [<- | [<- | [<- | []]]]];
    cbn [existsb matchComplex matchCompound forallb fst snd matchSimple] in Hm;
    rewrite orb_false_r, andb_true_r in Hm.
  - now rewrite Hm.
  - destruct (getAttr "class" attribs) as [v|]; [| discriminate].
    apply inb_In, tokens_includes in Hm. rewrite Hm.
    now rewrite orb_true_r.
  - destruct (getAttr "class" attribs) as [v|]; [| discriminate].
    rewrite Hm. now rewrite orb_true_r.
  - destruct (getAttr "id" attribs) as [v|]; [| discriminate].
    apply String.eqb_eq in Hm. subst v. apply orb_true_r.
Qed.

Lemma no_footerLike_no_selection : forall dom sel,
  (forall el, In el (elements dom) -> footerLike el = false) ->
  In sel footerSelectors ->
  select sel dom = [].
Proof.
  intros dom sel Hno Hsel.
  destruct (select sel dom) as [|x rest] eqn:E; [reflexivity |].
  exfalso.
  assert (Hin : In x (select sel dom)) by (rewrite E; now left).
  apply select_sound in Hin.
  destruct Hin as (Hel & name & attribs & children & ancestors & -> & Hm).
  apply (footerSelectors_footerLike sel ancestors name attribs children Hsel) in Hm.
  rewrite (Hno _ Hel) in Hm. discriminate.
Qed.

Lemma firstFooterText_none : forall selectors dom,
  (forall sel, In sel selectors -> select sel dom = []) ->
  firstFooterText selectors dom = EmptyString.
Proof.
  induction selectors as [|sel rest IH]; intros dom H; simpl; [reflexivity |].
  rewrite (H sel (or_introl eq_refl)). apply IH.
  intros s Hs. apply H. now right.
Qed.

(** Without a footer element the footer is the last five non-blank lines of
    the body text, or all of them when there are fewer. *)
Lemma extractFooter_fallback : forall dom,
  (forall sel, In sel footerSelectors -> select sel dom = []) ->
  extractFooter dom =
  JS.join JS.newline (JS.sliceLast 5 (nonBlankLines (bodyText dom))).
Proof.
  intros dom H. unfold extractFooter.
  now rewrite (firstFooterText_none footerSelectors dom H).
Qed.

(** C10.  When the document has no footer-like element and the text of its
    body has exactly seven non-blank lines, the extracted footer is the last
    five of them, joined by newlines. *)
Theorem extractFooter_seven_lines :
  forall (dom : document) (l1 l2 l3 l4 l5 l6 l7 : string),
    (forall el, In el (elements dom) -> footerLike el = false) ->
    nonBlankLines (bodyText dom) = [l1; l2; l3; l4; l5; l6; l7] ->
    extractFooter dom =
    l3 +++ JS.newline +++ l4 +++ JS.newline +++ l5 +++ JS.newline +++ l6
       +++ JS.newline +++ l7.
Proof.
  intros dom l1 l2 l3 l4 l5 l6 l7 Hno Hlines.
  rewrite extractFooter_fallback.
  - rewrite Hlines. reflexivity.
  - intros sel Hsel. now apply no_footerLike_no_selection.
Qed.

Lemma extractFooter_seven_lines_witness :
  let nl := JS.newline in
  let dom :=
    [ Element "html" []
        [ Element "body" []
            [ Element "p" [] [ Text ("Big sale" +++ nl +++ "  " +++ nl +++ "Shop now" +++ nl) ];
              Element "div" [("class", "legal")]
                [ Text ("Acme Inc." +++ nl +++ "1 Main Street" +++ nl +++ "All rights reserved"
                        +++ nl +++ nl +++ "Privacy Policy" +++ nl +++ "Terms") ] ] ] ] in
  extractFooter dom =
  "Acme Inc." +++ nl +++ "1 Main Street" +++ nl +++ "All rights reserved" +++ nl
    +++ "Privacy Policy" +++ nl +++ "Terms".
Proof.
  intros nl dom.
  apply (extractFooter_seven_lines dom "Big sale" "Shop now").
  - intros el Hin. vm_compute in Hin.
    repeat (destruct Hin as [<- | Hin]; [vm_compute; reflexivity |]).
    destruct Hin.
  - vm_compute. reflexivity.
Defined.

(* ================================================================== *)
(** * The comparator on configured lists *)
(* ================================================================== *)

Lemma existsb_map_comp : forall (A B : Type) (f : B -> bool) (g : A -> B) (l : list A),
  existsb f (map g l) = existsb (fun x => f (g x)) l.
Proof.
  intros A B f g l. induction l as [|x l IH]; simpl; [reflexivity |].
  now rewrite IH.
Qed.

Lemma unconfigured_cons : forall xs, xs <> [] -> unconfigured (Some xs) = false.
Proof. intros [|x xs] H; [congruence | reflexivity]. Qed.

Lemma includes_empty : forall s, JS.includes s "" = true.
Proof. intros [|c s]; reflexivity. Qed.

Lemma startsWith_refl : forall s, JS.startsWith s s = true.
Proof.
  induction s as [|c s IH]; simpl; [reflexivity |].
  now rewrite Ascii.eqb_refl, IH.
Qed.

Lemma includes_refl : forall s, JS.includes s s = true.
Proof. intros [|c s]; simpl; [reflexivity |]. now rewrite Ascii.eqb_refl, startsWith_refl. Qed.

Lemma compareCTAText_configured : forall documentText emailCTAs expectedCTAs,
  expectedCTAs <> [] ->
  let r := compareCTAText documentText emailCTAs (Some expectedCTAs) in
  cta_matched r = Some (filter (ctaTextMatches emailCTAs) expectedCTAs) /\
  cta_status r = statusOfIssues
                   (filter (fun e => negb (ctaTextMatches emailCTAs e)) expectedCTAs) /\
  exists issues,
    cta_issues r = Some issues /\
    List.length issues =
    List.length (filter (fun e => negb (ctaTextMatches emailCTAs e)) expectedCTAs).
Proof.
  intros doc ctas expected Hne r. subst r. unfold compareCTAText.
  rewrite (unconfigured_cons _ Hne). cbv zeta. rewrite partitionLoop_eq.
  cbn [listOf cta_matched cta_status cta_issues].
  assert (F1 : forall l,
             filter (fun e =>
                       existsb (fun t => lenientMatch t (JS.trim (JS.toLowerCase e)))
                               (map (fun c => JS.trim (JS.toLowerCase (cta_text c))) ctas)) l
             = filter (ctaTextMatches ctas) l).
  { intros l. apply filter_ext. intros e. apply existsb_map_comp. }
  assert (F2 : forall l,
             filter (fun e =>
                       negb (existsb (fun t => lenientMatch t (JS.trim (JS.toLowerCase e)))
                               (map (fun c => JS.trim (JS.toLowerCase (cta_text c))) ctas))) l
             = filter (fun e => negb (ctaTextMatches ctas e)) l).
  { intros l. apply filter_ext. intros e. unfold ctaTextMatches.
    now rewrite existsb_map_comp. }
  rewrite F1, F2, map_id. split; [reflexivity |]. split.
  - destruct (filter (fun e => negb (ctaTextMatches ctas e)) expected); reflexivity.
  - eexists. split; [reflexivity |]. apply length_map.
Qed.

Lemma all_true_iff_none_false : forall (A : Type) (p : A -> bool) (l : list A),
  filter (fun x => negb (p x)) l = [] <-> (forall x, In x l -> p x = true).
Proof.
  intros A p l. induction l as [|x l IH]; simpl.
  - split; [intros _ y [] | reflexivity].
  - destruct (p x) eqn:E; simpl.
    + rewrite IH. split; [intros H y [<- | Hy]; auto | intros H y Hy; apply H; now right].
    + split; [discriminate |]. intros H.
      specialize (H x (or_introl eq_refl)). congruence.
Qed.

(** X1.  With expected labels configured, the CTA-text check reports as
    matched the expected labels that some candidate matches, in their order,
    raises one issue for each of the others, and passes exactly when every
    expected label is matched. *)
Theorem compareCTAText_verdict :
  forall (documentText : string) (emailCTAs : list CTA) (expectedCTAs : list string),
    expectedCTAs <> [] ->
    let r := compareCTAText documentText emailCTAs (Some expectedCTAs) in
    cta_matched r = Some (filter (ctaTextMatches emailCTAs) expectedCTAs) /\
    (exists issues,
        cta_issues r = Some issues /\
        List.length issues =
        List.length (filter (fun e => negb (ctaTextMatches emailCTAs e)) expectedCTAs)) /\
    (cta_status r = PASS <->
     forall e, In e expectedCTAs -> ctaTextMatches emailCTAs e = true).
Proof.
  intros doc ctas expected Hne r.
  destruct (compareCTAText_configured doc ctas expected Hne) as (Hm & Hs & Hi).
  fold r in Hm, Hs, Hi. split; [exact Hm |]. split; [exact Hi |].
  rewrite Hs, statusOfIssues_PASS. apply all_true_iff_none_false.
Qed.

Lemma compareCTAText_verdict_witness :
  let ctas := [ {| cta_text := " Shop Now "; cta_url := "https://shop.test/sale";
                   cta_cleanUrl := "https://shop.test/sale" |} ] in
  [ "SHOP"; "Book a demo" ] <> [] /\
  cta_matched (compareCTAText "" ctas (Some [ "SHOP"; "Book a demo" ])) = Some [ "SHOP" ].
Proof.
  intros ctas. split; [discriminate |].
  destruct (compareCTAText_verdict "" ctas [ "SHOP"; "Book a demo" ]) as (H & _);
    [discriminate |].
  rewrite H. vm_compute. reflexivity.
Defined.

(** X2.  The matching of labels goes both ways: an expected label is matched
    as soon as the lower-cased, trimmed text of some candidate contains the
    lower-cased, trimmed label, or is contained in it. *)
Theorem compareCTAText_bidirectional :
  forall (documentText : string) (emailCTAs : list CTA) (expectedCTAs : list string)
         (c : CTA) (e : string),
    In c emailCTAs -> In e expectedCTAs ->
    JS.includes (JS.trim (JS.toLowerCase (cta_text c))) (JS.trim (JS.toLowerCase e)) = true \/
    JS.includes (JS.trim (JS.toLowerCase e)) (JS.trim (JS.toLowerCase (cta_text c))) = true ->
    exists matched,
      cta_matched (compareCTAText documentText emailCTAs (Some expectedCTAs)) = Some matched /\
      In e matched.
Proof.
  intros doc ctas expected c e Hc He Hinc.
  assert (Hne : expected <> []) by (intros ->; destruct He).
  destruct (compareCTAText_configured doc ctas expected Hne) as (Hm & _).
  eexists. split; [exact Hm |]. apply filter_In. split; [exact He |].
  unfold ctaTextMatches. apply existsb_exists. exists c. split; [exact Hc |].
  unfold lenientMatch. destruct Hinc as [H | H]; rewrite H, ?orb_true_r; reflexivity.
Qed.

Lemma compareCTAText_bidirectional_witness :
  let shop := {| cta_text := "Shop Now"; cta_url := "https://shop.test/sale";
                 cta_cleanUrl := "https://shop.test/sale" |} in
  exists matched,
    cta_matched (compareCTAText "" [ shop ] (Some [ "shop"; "Shop now and save" ]))
    = Some matched /\ In "shop" matched /\ In "Shop now and save" matched.
Proof.
  intros shop.
  destruct (compareCTAText_bidirectional "" [ shop ] [ "shop"; "Shop now and save" ]
              shop "shop") as (m1 & E1 & H1);
    [now left | now left | left; vm_compute; reflexivity |].
  destruct (compareCTAText_bidirectional "" [ shop ] [ "shop"; "Shop now and save" ]
              shop "Shop now and save") as (m2 & E2 & H2);
    [now left | right; now left | right; vm_compute; reflexivity |].
  exists m1. split; [exact E1 |]. split; [exact H1 |].
  rewrite E1 in E2. inversion E2. subst m2. exact H2.
Defined.

(** X3.  A candidate whose text is empty once lower-cased and trimmed is
    contained in every label: with such a candidate in the list the CTA-text
    check passes, whatever labels are expected.  By symmetry an expected
    label that is blank is matched by any candidate. *)
Theorem compareCTAText_blank :
  forall (documentText : string) (emailCTAs : list CTA) (expectedCTAs : list string),
    expectedCTAs <> [] ->
    ((exists c, In c emailCTAs /\ JS.trim (JS.toLowerCase (cta_text c)) = "") ->
     cta_status (compareCTAText documentText emailCTAs (Some expectedCTAs)) = PASS) /\
    (emailCTAs <> [] ->
     forall e, In e expectedCTAs -> JS.trim (JS.toLowerCase e) = "" ->
               ctaTextMatches emailCTAs e = true).
Proof.
  intros doc ctas expected Hne. split.
  - intros (c & Hc & Hblank).
    destruct (compareCTAText_configured doc ctas expected Hne) as (_ & Hs & _).
    rewrite Hs. apply statusOfIssues_PASS, all_true_iff_none_false.
    intros e He. unfold ctaTextMatches. apply existsb_exists. exists c.
    split; [exact Hc |]. unfold lenientMatch. rewrite Hblank, includes_empty.
    now rewrite orb_true_r.
  - intros Hctas e He Hblank. unfold ctaTextMatches.
    destruct ctas as [|c ctas]; [congruence |]. cbn [existsb].
    unfold lenientMatch at 1. rewrite Hblank, includes_empty.
    now rewrite orb_true_r.
Qed.

Lemma compareCTAText_blank_witness :
  let icon := {| cta_text := "   "; cta_url := "https://x.test/a";
                 cta_cleanUrl := "https://x.test/a" |} in
  [ "Book a demo" ] <> [] /\
  cta_status (compareCTAText "" [ icon ] (Some [ "Book a demo" ])) = PASS.
Proof.
  intros icon. split; [discriminate |].
  apply (compareCTAText_blank "" [ icon ] [ "Book a demo" ]); [discriminate |].
  exists icon. split; [now left | vm_compute; reflexivity].
Defined.

Lemma compareCTAUrls_configured : forall (parser : URLParser) emailCTAs expectedUrls,
  expectedUrls <> [] ->
  let r := compareCTAUrls emailCTAs (Some expectedUrls) in
  cta_matched r = Some (filter (ctaUrlMatches emailCTAs) expectedUrls) /\
  cta_status r = statusOfIssues
                   (filter (fun e => negb (ctaUrlMatches emailCTAs e)) expectedUrls) /\
  exists issues,
    cta_issues r = Some issues /\
    List.length issues =
    List.length (filter (fun e => negb (ctaUrlMatches emailCTAs e)) expectedUrls).
Proof.
  intros parser ctas expected Hne r. subst r. unfold compareCTAUrls.
  rewrite (unconfigured_cons _ Hne). cbv zeta. rewrite partitionLoop_eq.
  cbn [listOf cta_matched cta_status cta_issues]. unfold ctaUrlMatches.
  rewrite map_id. split; [reflexivity |]. split.
  - match goal with |- statusOfIssues (map _ ?l) = _ => destruct l; reflexivity end.
  - eexists. split; [reflexivity |]. apply length_map.
Qed.

Lemma startsWith_app : forall x a b,
  JS.startsWith (x +++ b) (x +++ a) = JS.startsWith b a.
Proof.
  induction x as [|c x IH]; intros a b; simpl; [reflexivity |].
  now rewrite Ascii.eqb_refl, IH.
Qed.

Lemma includes_startsWith : forall s sub, JS.startsWith s sub = true -> JS.includes s sub = true.
Proof. intros [|c s] sub H; simpl in *; now rewrite H. Qed.

(** X4.  With expected URLs configured, the CTA-URL check reports as matched
    the expected URLs that some candidate matches, raises one issue for each
    of the others, and passes exactly when every expected URL is matched. *)
Theorem compareCTAUrls_verdict :
  forall (parser : URLParser) (emailCTAs : list CTA) (expectedUrls : list string),
    expectedUrls <> [] ->
    let r := compareCTAUrls emailCTAs (Some expectedUrls) in
    cta_matched r = Some (filter (ctaUrlMatches emailCTAs) expectedUrls) /\
    (exists issues,
        cta_issues r = Some issues /\
        List.length issues =
        List.length (filter (fun e => negb (ctaUrlMatches emailCTAs e)) expectedUrls)) /\
    (cta_status r = PASS <->
     forall e, In e expectedUrls -> ctaUrlMatches emailCTAs e = true).
Proof.
  intros parser ctas expected Hne r.
  destruct (compareCTAUrls_configured parser ctas expected Hne) as (Hm & Hs & Hi).
  fold r in Hm, Hs, Hi. split; [exact Hm |]. split; [exact Hi |].
  rewrite Hs, statusOfIssues_PASS. apply all_true_iff_none_false.
Qed.

Lemma compareCTAUrls_verdict_witness :
  let ctas := [ {| cta_text := "Shop Now"; cta_url := "https://shop.test/sale?utm_campaign=x";
                   cta_cleanUrl := "https://shop.test/sale" |} ] in
  [ "https://shop.test/sale/"; "https://other.test/a" ] <> [] /\
  cta_matched (compareCTAUrls ctas (Some [ "https://shop.test/sale/"; "https://other.test/a" ]))
  = Some [ "https://shop.test/sale/" ].
Proof.
  intros ctas. split; [discriminate |].
  destruct (compareCTAUrls_verdict simpleParser ctas
              [ "https://shop.test/sale/"; "https://other.test/a" ]) as (H & _);
    [discriminate |].
  rewrite H. vm_compute. reflexivity.
Defined.

(** X5.  URLs are compared by origin and path only, and by containment: an
    expected URL is matched by every candidate of the same origin (case
    ignored) whose path, a trailing slash apart, starts with the expected
    path.  The queries and fragments of the two play no part. *)
Theorem compareCTAUrls_same_origin_prefix :
  forall (parser : URLParser) (emailCTAs : list CTA) (expectedUrls : list string)
         (c : CTA) (e : string) (uc ue : URL),
    In c emailCTAs -> In e expectedUrls ->
    newURL (cta_cleanUrl c) = Some uc -> newURL e = Some ue ->
    JS.toLowerCase (origin uc) = JS.toLowerCase (origin ue) ->
    JS.startsWith (stripTrailingSlash (pathname uc)) (stripTrailingSlash (pathname ue)) = true ->
    exists matched,
      cta_matched (compareCTAUrls emailCTAs (Some expectedUrls)) = Some matched /\
      In e matched.
Proof.
  intros parser ctas expected c e uc ue Hc He Pc Pe Ho Hp.
  assert (Hne : expected <> []) by (intros ->; destruct He).
  destruct (compareCTAUrls_configured parser ctas expected Hne) as (Hm & _).
  eexists. split; [exact Hm |]. apply filter_In. split; [exact He |].
  unfold ctaUrlMatches. apply existsb_exists. exists c. split; [exact Hc |].
  unfold lenientMatch, normalizeUrl. rewrite Pc, Pe, Ho.
  rewrite (includes_startsWith _ _ (eq_trans (startsWith_app _ _ _) Hp)).
  now rewrite orb_true_r.
Qed.

Lemma compareCTAUrls_same_origin_prefix_witness :
  let c := {| cta_text := "Shoes"; cta_url := "https://shop.test/sale/shoes?id=7#top";
              cta_cleanUrl := "https://shop.test/sale/shoes?id=7#top" |} in
  exists matched,
    cta_matched (compareCTAUrls [ c ] (Some [ "https://shop.test/sale/?page=2" ]))
    = Some matched /\ In "https://shop.test/sale/?page=2" matched.
Proof.
  intros c.
  eapply (compareCTAUrls_same_origin_prefix simpleParser [ c ]
            [ "https://shop.test/sale/?page=2" ] c "https://shop.test/sale/?page=2");
    try (now left); try (vm_compute; reflexivity).
Defined.

Lemma checkKeywords_configured : forall emailText requiredKeywords,
  requiredKeywords <> [] ->
  checkKeywords emailText (Some requiredKeywords) =
  let missing := filter (fun k => negb (occursIn k emailText)) requiredKeywords in
  {| kw_status := statusOfIssues missing;
     kw_message := None;
     kw_required := Some requiredKeywords;
     kw_found := Some (filter (fun k => occursIn k emailText) requiredKeywords);
     kw_missing := Some missing;
     kw_issues :=
       Some (map (fun k => "Required keyword " +++ JS.dquote +++ k +++ JS.dquote
                           +++ " not found in email") missing) |}.
Proof.
  intros text kws Hne. unfold checkKeywords.
  rewrite (unconfigured_cons _ Hne). cbv zeta. rewrite partitionLoop_eq.
  cbn [listOf]. unfold occursIn. rewrite !map_id. reflexivity.
Qed.

(** X6.  With keywords configured, the keywords check sorts them, in their
    order, into those that occur in the text of the email, case ignored, and
    those that do not; it lists every missing keyword, raises one issue for
    each, and passes exactly when none is missing. *)
Theorem checkKeywords_verdict :
  forall (emailText : string) (requiredKeywords : list string),
    requiredKeywords <> [] ->
    let r := checkKeywords emailText (Some requiredKeywords) in
    kw_found r = Some (filter (fun k => occursIn k emailText) requiredKeywords) /\
    kw_missing r = Some (filter (fun k => negb (occursIn k emailText)) requiredKeywords) /\
    option_map (@List.length string) (kw_issues r)
    = option_map (@List.length string) (kw_missing r) /\
    (kw_status r = PASS <->
     forall k, In k requiredKeywords -> occursIn k emailText = true).
Proof.
  intros text kws Hne r. subst r. rewrite (checkKeywords_configured text kws Hne).
  cbv zeta. cbn [kw_found kw_missing kw_issues kw_status option_map].
  split; [reflexivity |]. split; [reflexivity |]. split.
  - now rewrite length_map.
  - rewrite statusOfIssues_PASS. apply all_true_iff_none_false.
Qed.

Lemma checkKeywords_verdict_witness :
  [ "50% OFF"; "free shipping"; "today only" ] <> [] /\
  kw_missing (checkKeywords "Get 50% off everything" (Some [ "50% OFF"; "free shipping"; "today only" ]))
  = Some [ "free shipping"; "today only" ].
Proof.
  split; [discriminate |].
  destruct (checkKeywords_verdict "Get 50% off everything"
              [ "50% OFF"; "free shipping"; "today only" ]) as (_ & H & _);
    [discriminate |].
  rewrite H. vm_compute. reflexivity.
Defined.

(** X7.  The unsubscribe check fails exactly when the extractor's signal is
    not found (or is absent) and the text of the email does not contain the
    required text, case ignored; the required text is the word unsubscribe
    when none is configured.  When it passes on the text alone it reports
    the text as found. *)
Theorem checkUnsubscribe_verdict :
  forall (emailContent : EmailContent) (requiredText : option string),
    let required := match requiredText with Some t => t | None => "unsubscribe" end in
    let r := checkUnsubscribe emailContent requiredText in
    (unsub_status r = FAIL <->
     signalField found emailContent = false /\
     occursIn required (text emailContent) = false) /\
    (occursIn required (text emailContent) = true ->
     unsub_status r = PASS /\ unsub_hasText r = Some true).
Proof.
  intros email req required r. subst r required. unfold checkUnsubscribe, occursIn.
  destruct (signalField found email);
    destruct (JS.includes (JS.toLowerCase (text email))
                (JS.toLowerCase match req with Some t => t | None => "unsubscribe" end));
    cbn; (split; [split; [try discriminate; auto | intros [? ?]; congruence] |]);
    intros H; try discriminate H; split; try reflexivity;
    now rewrite orb_true_r.
Qed.

Lemma statusOfIssues_FAIL : forall (issues : list string),
  statusOfIssues issues = FAIL <-> someIssues (Some issues) = true.
Proof. intros [|i issues]; simpl; split; congruence. Qed.

Lemma compareCTAText_issues : forall documentText emailCTAs expectedCTAs,
  let r := compareCTAText documentText emailCTAs expectedCTAs in
  cta_status r = FAIL <-> someIssues (cta_issues r) = true.
Proof.
  intros doc ctas expected r. subst r. unfold compareCTAText.
  destruct (unconfigured expected).
  - cbn. split; discriminate.
  - cbv zeta. rewrite partitionLoop_eq. cbn [cta_status cta_issues].
    apply statusOfIssues_FAIL.
Qed.

Lemma compareCTAUrls_issues : forall (parser : URLParser) emailCTAs expectedUrls,
  let r := compareCTAUrls emailCTAs expectedUrls in
  cta_status r = FAIL <-> someIssues (cta_issues r) = true.
Proof.
  intros parser ctas expected r. subst r. unfold compareCTAUrls.
  destruct (unconfigured expected).
  - cbn. split; discriminate.
  - cbv zeta. rewrite partitionLoop_eq. cbn [cta_status cta_issues].
    apply statusOfIssues_FAIL.
Qed.

Lemma checkUnsubscribe_issues : forall emailContent requiredText,
  let r := checkUnsubscribe emailContent requiredText in
  unsub_status r = FAIL <-> someIssues (unsub_issues r) = true.
Proof.
  intros email req r. subst r. unfold checkUnsubscribe.
  match goal with |- context [if ?b then _ else _] => destruct b end;
    cbn; split; congruence.
Qed.

Lemma checkFooter_found : forall footerText fullText requiredTexts,
  footer_found (checkFooter footerText fullText requiredTexts) =
  filter (footerTextFound footerText fullText) (textsToCheck requiredTexts).
Proof.
  intros ft full req. unfold checkFooter, textsToCheck, footerTextFound.
  rewrite partitionLoop_eq. rewrite map_id.
  destruct (listOf req) as [|r rs]; cbn [List.length Nat.ltb Nat.leb].
  - rewrite andb_false_r. reflexivity.
  - rewrite andb_true_r.
    match goal with |- context [if ?b then _ else _] => destruct b eqn:L end;
      cbn [footer_found]; [| reflexivity].
    apply length_zero_eqb in L. now rewrite L.
Qed.

Lemma checkFooter_issues_length : forall footerText fullText requiredTexts,
  List.length (footer_issues (checkFooter footerText fullText requiredTexts)) =
  List.length (filter (fun t => negb (footerTextFound footerText fullText t))
                      (textsToCheck requiredTexts)).
Proof.
  intros ft full req. unfold checkFooter, textsToCheck, footerTextFound.
  rewrite partitionLoop_eq.
  destruct (listOf req) as [|r rs];
    match goal with |- context [if ?b then _ else _] => destruct b end;
    cbn [footer_issues]; apply length_map.
Qed.

Lemma checkFooter_issues : forall footerText fullText requiredTexts,
  let r := checkFooter footerText fullText requiredTexts in
  footer_status r = FAIL <-> someIssues (Some (footer_issues r)) = true.
Proof.
  intros ft full req r. subst r.
  assert (P := checkFooter_PASS_iff ft full req).
  assert (L := checkFooter_issues_length ft full req).
  rewrite <- all_true_iff_none_false in P.
  destruct (filter (fun t => negb (footerTextFound ft full t)) (textsToCheck req)) as [|m ms].
  - destruct (footer_issues (checkFooter ft full req)); [| discriminate L].
    destruct P as [_ P]. rewrite (P eq_refl). cbn. split; discriminate.
  - destruct (footer_issues (checkFooter ft full req)); [discriminate L |].
    cbn. split; [reflexivity | intros _].
    destruct (footer_status (checkFooter ft full req)); [| reflexivity].
    destruct P as [P _]. discriminate (P eq_refl).
Qed.

Lemma checkKeywords_issues : forall emailText requiredKeywords,
  let r := checkKeywords emailText requiredKeywords in
  kw_status r = FAIL <-> someIssues (kw_issues r) = true.
Proof.
  intros text kws r. subst r. unfold checkKeywords.
  destruct (unconfigured kws).
  - cbn. split; discriminate.
  - cbv zeta. rewrite partitionLoop_eq. cbn [kw_status kw_issues].
    match goal with |- statusOfIssues (map _ ?l) = _ <-> _ => destruct l end;
      cbn; split; congruence.
Qed.

(** X8.  In each of the five results of [compare] the status and the issues
    agree: the status is FAIL exactly when the result carries at least one
    issue, for every email content and every configuration. *)
Theorem compare_status_issues :
  forall (parser : URLParser) (documentText : string) (emailContent : EmailContent)
         (config : Config),
    let r := compare documentText emailContent config in
    (cta_status (res_cta_text r) = FAIL <-> someIssues (cta_issues (res_cta_text r)) = true) /\
    (cta_status (res_cta_url r) = FAIL <-> someIssues (cta_issues (res_cta_url r)) = true) /\
    (unsub_status (res_unsubscribe r) = FAIL <->
     someIssues (unsub_issues (res_unsubscribe r)) = true) /\
    (footer_status (res_footer r) = FAIL <->
     someIssues (Some (footer_issues (res_footer r))) = true) /\
    (kw_status (res_keywords r) = FAIL <-> someIssues (kw_issues (res_keywords r)) = true).
Proof.
  intros parser doc email config r. subst r. unfold compare.
  cbn [res_cta_text res_cta_url res_unsubscribe res_footer res_keywords].
  split; [apply compareCTAText_issues |].
  split; [apply compareCTAUrls_issues |].
  split; [apply checkUnsubscribe_issues |].
  split; [apply checkFooter_issues | apply checkKeywords_issues].
Qed.

Lemma toLowerCase_app : forall a b,
  JS.toLowerCase (a +++ b) = JS.toLowerCase a +++ JS.toLowerCase b.
Proof. induction a as [|c a IH]; intros b; simpl; [reflexivity |]. now rewrite IH. Qed.

Lemma startsWith_app_l : forall a b x,
  JS.startsWith a x = true -> JS.startsWith (a +++ b) x = true.
Proof.
  induction a as [|c a IH]; intros b x H.
  - destruct x; [destruct b; reflexivity | discriminate H].
  - destruct x as [|d x]; [reflexivity |]. simpl in *.
    apply andb_prop in H. destruct H as [H1 H2]. now rewrite H1, (IH b x H2).
Qed.

Lemma includes_app_l : forall a b x,
  JS.includes a x = true -> JS.includes (a +++ b) x = true.
Proof.
  induction a as [|c a IH]; intros b x H.
  - simpl in H. rewrite orb_false_r in H.
    apply includes_startsWith. now apply (startsWith_app_l "" b x).
  - cbn [JS.includes] in H. apply orb_prop in H. destruct H as [H | H].
    + apply includes_startsWith. now apply startsWith_app_l.
    + change (String c a +++ b) with (String c (a +++ b)). cbn [JS.includes].
      rewrite (IH b x H). apply orb_true_r.
Qed.

Lemma includes_app_r : forall a b x,
  JS.includes b x = true -> JS.includes (a +++ b) x = true.
Proof.
  induction a as [|c a IH]; intros b x H; [exact H |].
  change (String c a +++ b) with (String c (a +++ b)). cbn [JS.includes].
  rewrite (IH b x H). apply orb_true_r.
Qed.

(** X9.  The footer check looks for a required text in the footer and in the
    whole text of the email: a text that occurs in either of the two, case
    ignored, is reported as found. *)
Theorem checkFooter_found_in_either :
  forall (footerText fullText : string) (requiredTexts : option (list string))
         (item : string),
    In item (textsToCheck requiredTexts) ->
    occursIn item footerText = true \/ occursIn item fullText = true ->
    In item (footer_found (checkFooter footerText fullText requiredTexts)).
Proof.
  intros ft full req item Hin Hocc.
  rewrite checkFooter_found. apply filter_In. split; [exact Hin |].
  unfold footerTextFound, footerSearchText, occursIn in *.
  rewrite !toLowerCase_app. destruct Hocc as [H | H].
  - now apply includes_app_l.
  - now apply includes_app_r, includes_app_r.
Qed.

Lemma checkFooter_found_in_either_witness :
  In "terms" (footer_found (checkFooter "(c) Acme" "Read our Terms of use" None)) /\
  In "Acme" (footer_found (checkFooter "(c) Acme" "Read our Terms of use" (Some [ "Acme" ]))).
Proof.
  split.
  - apply checkFooter_found_in_either;
      [right; right; now left | right; vm_compute; reflexivity].
  - apply checkFooter_found_in_either;
      [now left | left; vm_compute; reflexivity].
Defined.

(** The rule-based checks never read the reference document: for the same
    email content and configuration, two documents give the same five
    results. *)
Lemma compare_ignores_document :
  forall (parser : URLParser) (documentText documentText' : string)
         (emailContent : EmailContent) (config : Config),
    compare documentText emailContent config = compare documentText' emailContent config.
Proof. intros parser d d' email config. reflexivity. Qed.

(* ================================================================== *)
(** * The route and the issues of the report *)
(* ================================================================== *)

Lemma functionPassed_true_iff : forall r : FunctionResults,
  functionPassed r = true <->
  cta_status (res_cta_text r) = PASS /\ cta_status (res_cta_url r) = PASS /\
  unsub_status (res_unsubscribe r) = PASS /\ footer_status (res_footer r) = PASS /\
  kw_status (res_keywords r) = PASS.
Proof.
  intros r. unfold functionPassed. cbn [forallb].
  destruct (cta_status (res_cta_text r)), (cta_status (res_cta_url r)),
    (unsub_status (res_unsubscribe r)), (footer_status (res_footer r)),
    (kw_status (res_keywords r)); cbn; intuition congruence.
Qed.

Lemma not_FAIL_iff : forall (s : Status) (b : bool),
  (s = FAIL <-> b = true) -> (b = false <-> s = PASS).
Proof. intros [|] [|] H; intuition congruence. Qed.

Lemma functionIssues_nil_iff : forall r : FunctionResults,
  functionIssues r = [] <->
  someIssues (cta_issues (res_cta_text r)) = false /\
  someIssues (cta_issues (res_cta_url r)) = false /\
  someIssues (unsub_issues (res_unsubscribe r)) = false /\
  someIssues (Some (footer_issues (res_footer r))) = false /\
  someIssues (kw_issues (res_keywords r)) = false.
Proof.
  intros r. unfold functionIssues, functionEntries. cbn [flat_map fst snd].
  destruct (cta_issues (res_cta_text r)) as [[|? ?]|],
    (cta_issues (res_cta_url r)) as [[|? ?]|],
    (unsub_issues (res_unsubscribe r)) as [[|? ?]|],
    (footer_issues (res_footer r)) as [|? ?],
    (kw_issues (res_keywords r)) as [[|? ?]|];
    cbn; intuition congruence.
Qed.

Lemma functionIssues_kind : forall r : FunctionResults,
  Forall (fun i => issue_type i = "function" /\ issue_severity i = "critical")
         (functionIssues r).
Proof.
  intros r. unfold functionIssues. apply Forall_flat_map, Forall_forall.
  intros [key [issues|]] _; cbn [fst snd]; [| constructor].
  apply Forall_map, Forall_forall. intros m _. split; reflexivity.
Qed.

Lemma semanticIssues_kind : forall entries issues,
  semanticIssues entries = Some issues ->
  Forall (fun i => issue_type i = "semantic" /\ issue_severity i = "warning") issues.
Proof.
  induction entries as [|[key result] rest IH]; intros issues H; simpl in H.
  - inversion H. constructor.
  - destruct (semanticMessages result) as [messages|]; [| discriminate].
    destruct (semanticIssues rest) as [more|]; [| discriminate].
    inversion H. apply Forall_app. split; [| now apply IH].
    apply Forall_map, Forall_forall. intros m _. split; reflexivity.
Qed.

Lemma functionIssues_none_iff_passed :
  forall (parser : URLParser) documentText emailContent config,
    let r := compare documentText emailContent config in
    functionIssues r = [] <-> functionPassed r = true.
Proof.
  intros parser doc email config r.
  rewrite functionIssues_nil_iff, functionPassed_true_iff. subst r. unfold compare.
  cbn [res_cta_text res_cta_url res_unsubscribe res_footer res_keywords].
  rewrite (not_FAIL_iff _ _ (compareCTAText_issues _ _ _)),
    (not_FAIL_iff _ _ (compareCTAUrls_issues parser _ _)),
    (not_FAIL_iff _ _ (checkUnsubscribe_issues _ _)),
    (not_FAIL_iff _ _ (checkFooter_issues _ _ _)),
    (not_FAIL_iff _ _ (checkKeywords_issues _ _)).
  reflexivity.
Qed.

Lemma semanticMessages_Some : forall result messages,
  semanticMessages result = Some messages ->
  messages = issueItems (optGet result "issues").
Proof.
  intros result messages H. unfold semanticMessages in H.
  destruct (optGet result "issues") as [| | b | n | s' | items | fields]; cbn [issueItems];
    try (inversion H; reflexivity).
  - destruct (JS.truthy s'); [discriminate H | inversion H; reflexivity].
  - destruct (ToNumber.positive (lookup "length" fields)) as [[|]|];
      [discriminate H | inversion H; reflexivity | discriminate H].
Qed.

Lemma semanticMessages_listOrNothing : forall result,
  listOrNothing (optGet result "issues") = true ->
  semanticMessages result = Some (issueItems (optGet result "issues")).
Proof.
  intros result H. unfold semanticMessages.
  destruct (optGet result "issues") as [| | b | n | s' | items | fields]; cbn [issueItems];
    try reflexivity.
  - cbn in H. apply negb_true_iff in H. now rewrite H.
  - discriminate H.
Qed.

Lemma semanticIssues_Some : forall entries issues,
  semanticIssues entries = Some issues -> issues = semanticTail (Some entries).
Proof.
  induction entries as [|[key result] rest IH]; intros issues H; cbn [semanticIssues] in H.
  - inversion H. reflexivity.
  - destruct (semanticMessages result) as [messages|] eqn:M; [| discriminate H].
    destruct (semanticIssues rest) as [more|]; [| discriminate H].
    inversion H. cbn [semanticTail flat_map fst snd].
    rewrite (semanticMessages_Some _ _ M). f_equal. exact (IH more eq_refl).
Qed.

Lemma semanticIssues_listOrNothing : forall entries,
  (forall key result, In (key, result) entries ->
                      listOrNothing (optGet result "issues") = true) ->
  semanticIssues entries = Some (semanticTail (Some entries)).
Proof.
  induction entries as [|[key result] rest IH]; intros H; cbn [semanticIssues];
    [reflexivity |].
  rewrite (semanticMessages_listOrNothing result (H key result (or_introl eq_refl))).
  rewrite IH by (intros k r Hin; apply (H k r); now right). reflexivity.
Qed.

Lemma semanticTail_kind : forall semanticResults,
  Forall (fun i => issue_type i = "semantic" /\ issue_severity i = "warning")
         (semanticTail semanticResults).
Proof.
  intros [sem|]; cbn [semanticTail]; [| constructor].
  apply Forall_flat_map, Forall_forall. intros [key result] _.
  apply Forall_map, Forall_forall. intros m _. split; reflexivity.
Qed.

Lemma functionIssues_tagged : forall r : FunctionResults,
  functionIssues r =
  tagged "cta_text" (listOf (cta_issues (res_cta_text r))) ++
  tagged "cta_url" (listOf (cta_issues (res_cta_url r))) ++
  tagged "unsubscribe" (listOf (unsub_issues (res_unsubscribe r))) ++
  tagged "footer" (footer_issues (res_footer r)) ++
  tagged "keywords" (listOf (kw_issues (res_keywords r))).
Proof.
  intros r. unfold functionIssues, functionEntries, tagged. cbn [flat_map fst snd].
  destruct (cta_issues (res_cta_text r)), (cta_issues (res_cta_url r)),
    (unsub_issues (res_unsubscribe r)), (kw_issues (res_keywords r));
    cbn [listOf map app]; rewrite ?app_nil_r; reflexivity.
Qed.

(** X10.  What [collectIssues] returns for the results of [compare].
    Whenever the call returns, its list is the function issues followed by
    the semantic issues.  The function issues are the issues of the CTA-text,
    CTA-URL, unsubscribe, footer and keywords checks, in that order, each
    under the name of its check, of type function and severity critical; the
    semantic issues are, entry by entry of the semantic result, the items of
    the entry's [issues] array under the entry's key, of type semantic and
    severity warning, and nothing for a [null] result.  The call does return
    when the [issues] of every entry is absent, falsy or an array.  There is
    no function issue exactly when all five checks passed. *)
Theorem collectIssues_of_compare :
  forall (parser : URLParser) (documentText : string) (emailContent : EmailContent)
         (config : Config) (semanticResults : option (list (string * jsval))),
    let r := compare documentText emailContent config in
    (forall issues, collectIssues r semanticResults = Some issues ->
                    issues = functionIssues r ++ semanticTail semanticResults) /\
    ((forall sem key result,
         semanticResults = Some sem -> In (key, result) sem ->
         listOrNothing (optGet result "issues") = true) ->
     collectIssues r semanticResults
     = Some (functionIssues r ++ semanticTail semanticResults)) /\
    functionIssues r =
      tagged "cta_text" (listOf (cta_issues (res_cta_text r))) ++
      tagged "cta_url" (listOf (cta_issues (res_cta_url r))) ++
      tagged "unsubscribe" (listOf (unsub_issues (res_unsubscribe r))) ++
      tagged "footer" (footer_issues (res_footer r)) ++
      tagged "keywords" (listOf (kw_issues (res_keywords r))) /\
    Forall (fun i => issue_type i = "function" /\ issue_severity i = "critical")
           (functionIssues r) /\
    Forall (fun i => issue_type i = "semantic" /\ issue_severity i = "warning")
           (semanticTail semanticResults) /\
    (functionIssues r = [] <-> functionPassed r = true).
Proof.
  intros parser doc email config sem r.
  split; [| split; [| split; [| split; [| split]]]].
  - intros issues H. unfold collectIssues in H. destruct sem as [sem|].
    + destruct (semanticIssues sem) as [more|] eqn:E; [| discriminate H].
      inversion H. now rewrite (semanticIssues_Some sem more E).
    + inversion H. cbn [semanticTail]. now rewrite app_nil_r.
  - intros Hok. unfold collectIssues. destruct sem as [sem|].
    + rewrite (semanticIssues_listOrNothing sem (fun k v => Hok sem k v eq_refl)).
      reflexivity.
    + cbn [semanticTail]. now rewrite app_nil_r.
  - apply functionIssues_tagged.
  - apply functionIssues_kind.
  - apply semanticTail_kind.
  - apply functionIssues_none_iff_passed.
Qed.

Lemma collectIssues_of_compare_witness :
  let email := {| text := "Sale: all rights reserved, privacy policy, terms";
                  ctaButtons := []; hasUnsubscribe := None; footer := "" |} in
  let config := {| ctaTexts := None; ctaUrls := None; requiredKeywords := Some [ "sale" ];
                   unsubscribeText := None; footerTexts := None |} in
  let sem := [ ("headings", JObj [ ("status", JStr "FAIL");
                                   ("issues", JArr [ JStr "Heading differs" ]) ]);
               ("body_copy", JObj [ ("status", JStr "PASS"); ("issues", JArr []) ]);
               ("overall_match", JBool false);
               ("summary", JStr "One mismatch") ] in
  collectIssues (compare "" email config) (Some sem)
  = Some [ functionIssue "unsubscribe" "Missing unsubscribe link/text - COMPLIANCE ISSUE";
           semanticIssue "headings" (JStr "Heading differs") ].
Proof.
  intros email config sem.
  destruct (collectIssues_of_compare simpleParser "" email config (Some sem))
    as (_ & H & _).
  rewrite H; [vm_compute; reflexivity |].
  intros sem' key result E Hin. inversion E. subst sem'.
  destruct Hin as [E' | [E' | [E' | [E' | []]]]]; inversion E'; reflexivity.
Defined.

Lemma routeSemantic_placeholder_no_issues : forall message,
  semanticIssues (fst (routeSemantic true (AIThrew message))) = Some [] /\
  forall ai, semanticIssues (fst (routeSemantic false ai)) = Some [].
Proof. intros message. split; [reflexivity | intros ai; reflexivity]. Qed.


(** X12.  When the call to the semantic comparator throws, the report is
    FAIL, also when all five function checks passed: the placeholder result
    has no [overall_match].  The placeholder brings no issue, so the issues
    of that report are the function issues alone, none at all when the
    checks passed. *)
Theorem routeStatus_AI_unavailable :
  forall (parser : URLParser) (documentText : string) (emailContent : EmailContent)
         (config : option Config) (message : string),
    routeStatus documentText emailContent config (AIThrew message) = FAIL /\
    routeIssues documentText emailContent config (AIThrew message)
    = Some (functionIssues (compare documentText emailContent (comparisonConfig config))) /\
    (functionPassed (compare documentText emailContent (comparisonConfig config)) = true ->
     routeIssues documentText emailContent config (AIThrew message) = Some []).
Proof.
  intros parser doc email config message. unfold routeStatus, routeIssues.
  set (r := compare doc email (comparisonConfig config)).
  assert (I : (let '(semanticResults, _) := routeSemantic (functionPassed r) (AIThrew message) in
               collectIssues r (Some semanticResults)) = Some (functionIssues r)).
  { destruct (functionPassed r); cbn [routeSemantic collectIssues];
      cbn [semanticIssues semanticMessages optGet skipped lookup String.eqb Ascii.eqb
             Bool.eqb andb];
      cbn; now rewrite app_nil_r. }
  split; [destruct (functionPassed r); reflexivity |].
  split; [exact I |].
  intros P. rewrite I. f_equal.
  now apply (functionIssues_none_iff_passed parser doc email (comparisonConfig config)).
Qed.

(* ================================================================== *)
(** * The configuration: the request and the form *)
(* ================================================================== *)

(** X13.  An empty [unsubscribeText] in the request switches the unsubscribe
    check off.  The spread of the request's configuration puts the empty
    string back over the default, every text contains the empty string, and
    the check passes for every email content. *)
Theorem empty_unsubscribeText_always_passes :
  forall (parser : URLParser) (documentText : string) (emailContent : EmailContent)
         (config : Config),
    unsubscribeText config = Some "" ->
    unsubscribeText (comparisonConfig (Some config)) = Some "" /\
    unsub_status
      (res_unsubscribe (compare documentText emailContent (comparisonConfig (Some config))))
    = PASS.
Proof.
  intros parser doc email config H. unfold comparisonConfig, compare.
  cbn [unsubscribeText res_unsubscribe]. rewrite H. split; [reflexivity |].
  unfold checkUnsubscribe. cbn [JS.toLowerCase]. rewrite includes_empty.
  now rewrite andb_false_r.
Qed.

Lemma empty_unsubscribeText_always_passes_witness :
  let config := {| ctaTexts := None; ctaUrls := None; requiredKeywords := None;
                   unsubscribeText := Some ""; footerTexts := None |} in
  let email := {| text := "No way out"; ctaButtons := []; hasUnsubscribe := None;
                  footer := "" |} in
  unsub_status (res_unsubscribe (compare "" email (comparisonConfig (Some config)))) = PASS.
Proof.
  intros config email.
  apply (empty_unsubscribeText_always_passes simpleParser "" email config eq_refl).
Defined.

Lemma split_allChars : forall sep s l,
  In l (JS.split sep s) -> allChars (fun c => negb (Ascii.eqb c sep)) l = true.
Proof.
  intros sep. induction s as [|c s IH]; intros l Hin.
  - destruct Hin as [<- | []]. reflexivity.
  - cbn [JS.split] in Hin. destruct (Ascii.eqb c sep) eqn:E.
    + destruct Hin as [<- | Hin]; [reflexivity | now apply IH].
    + destruct (JS.split sep s) as [|l0 ls] eqn:S.
      * destruct Hin as [<- | []]. cbn. now rewrite E.
      * destruct Hin as [<- | Hin].
        -- cbn. rewrite E. cbn. apply IH. now left.
        -- apply IH. now right.
Qed.

Lemma parseLines_blank : forall value, blank value = true -> parseLines value = [].
Proof.
  intros value H. unfold parseLines, blank in *.
  destruct (JS.trim value); [reflexivity | discriminate H].
Qed.

(** X14.  A text area of the configuration form is read as its non-empty
    lines: no entry is empty, none holds a line break, and a text area left
    empty or filled with white space gives the empty list. *)
Theorem parseLines_entries :
  forall value : string,
    (forall l, In l (parseLines value) ->
               JS.truthy l = true /\ allChars (fun c => negb (Ascii.eqb c JS.LF)) l = true) /\
    (blank value = true -> parseLines value = []).
Proof.
  intros value. unfold parseLines. split.
  - intros l Hin. apply filter_In in Hin. destruct Hin as [Hin Ht].
    split; [exact Ht |]. now apply split_allChars with (JS.trim value).
  - apply parseLines_blank.
Qed.

(** X15.  A form sent with its four text areas blank configures nothing:
    through the route's defaults the CTA-text, CTA-URL and keywords checks
    pass, and the footer check goes through the three built-in texts. *)
Theorem blank_form_is_unconfigured :
  forall (parser : URLParser) (documentText : string) (emailContent : EmailContent)
         (ctaTextsValue ctaUrlsValue keywordsValue footerTextsValue : string),
    blank ctaTextsValue = true -> blank ctaUrlsValue = true ->
    blank keywordsValue = true -> blank footerTextsValue = true ->
    let config := getConfig ctaTextsValue ctaUrlsValue keywordsValue footerTextsValue in
    let r := compare documentText emailContent (comparisonConfig (Some config)) in
    cta_status (res_cta_text r) = PASS /\
    cta_status (res_cta_url r) = PASS /\
    kw_status (res_keywords r) = PASS /\
    footer_required (res_footer r) = defaultCompliance.
Proof.
  intros parser doc email v1 v2 v3 v4 B1 B2 B3 B4 config r. subst r config.
  pose proof (parseLines_blank v1) as E1. pose proof (parseLines_blank v2) as E2.
  pose proof (parseLines_blank v3) as E3. pose proof (parseLines_blank v4) as E4.
  unfold getConfig, comparisonConfig, compare.
  cbn [ctaTexts ctaUrls requiredKeywords footerTexts unsubscribeText
       res_cta_text res_cta_url res_keywords res_footer].
  rewrite (E1 B1), (E2 B2), (E3 B3), (E4 B4).
  split; [reflexivity |]. split; [reflexivity |]. split; [reflexivity |].
  now rewrite checkFooter_required.
Qed.

Lemma blank_form_is_unconfigured_witness :
  let email := {| text := "Hello"; ctaButtons := []; hasUnsubscribe := None; footer := "" |} in
  let nl := JS.newline in
  footer_required
    (res_footer (compare "" email
                   (comparisonConfig (Some (getConfig "" "  " nl (" " +++ nl +++ " "))))))
  = defaultCompliance.
Proof.
  intros email nl.
  apply (blank_form_is_unconfigured simpleParser "" email "" "  " nl (" " +++ nl +++ " "));
    vm_compute; reflexivity.
Defined.

(* ================================================================== *)
(** * What the stripping of tracking parameters guarantees *)
(* ================================================================== *)

Lemma subsequence_nil : forall (A : Type) (l : list A), subsequence [] l.
Proof. induction l; constructor; assumption. Qed.

Lemma subsequence_trans : forall (A : Type) (l1 l2 l3 : list A),
  subsequence l1 l2 -> subsequence l2 l3 -> subsequence l1 l3.
Proof.
  intros A l1 l2 l3 H12 H23. revert l1 H12.
  induction H23 as [| x sub l H IH | x sub l H IH]; intros l1 H12.
  - exact H12.
  - apply subseq_skip. now apply IH.
  - inversion H12; subst.
    + apply subseq_skip. now apply IH.
    + apply subseq_keep. now apply IH.
Qed.

Lemma subsequence_In : forall (A : Type) (sub l : list A) (x : A),
  subsequence sub l -> In x sub -> In x l.
Proof.
  intros A sub l x H. induction H; intros Hin.
  - exact Hin.
  - right. auto.
  - destruct Hin as [<- | Hin]; [now left | right; auto].
Qed.

Lemma deleteWhileIterating_subsequence : forall fuel param index l,
  subsequence (deleteWhileIterating fuel param index l) l.
Proof.
  induction fuel as [|fuel IH]; intros param index l; simpl.
  - apply subsequence_refl.
  - destruct (nth_error l index) as [[key value]|]; [| apply subsequence_refl].
    destruct (startsWithParam key param); [| apply IH].
    eapply subsequence_trans; [apply IH |]. apply subsequence_filter.
Qed.

Lemma stripParam_subsequence : forall l param, subsequence (stripParam l param) l.
Proof.
  intros l param. unfold stripParam.
  eapply subsequence_trans; [apply deleteWhileIterating_subsequence |].
  apply subsequence_filter.
Qed.

Lemma fold_stripParam_subsequence : forall params l,
  subsequence (fold_left stripParam params l) l.
Proof.
  induction params as [|p params IH]; intros l; simpl; [apply subsequence_refl |].
  eapply subsequence_trans; [apply IH | apply stripParam_subsequence].
Qed.

(** X16.  The stripping only removes: the parameters it leaves are
    parameters of the input, in their order, and none of them carries the
    exact name of an entry of the tracking list. *)
Theorem stripAll_only_removes :
  forall l : URLSearchParams.t,
    subsequence (stripAll l) l /\
    (forall name value, In (name, value) (stripAll l) -> ~ In name trackingParams).
Proof.
  intros l. split; [apply fold_stripParam_subsequence |].
  intros name value H. now apply stripAll_In in H.
Qed.

(** X17.  No other parameter is lost: the parameters whose names neither
    equal nor start with (case ignored) an entry of the tracking list are
    all kept, with their values and in their order. *)
Theorem stripAll_keeps_the_rest :
  forall l : URLSearchParams.t,
    filter notTracking (stripAll l) = filter notTracking l /\
    (forall name value, In (name, value) l -> isTracking name = false ->
                        In (name, value) (stripAll l)).
Proof.
  intros l. split; [apply stripAll_keeps_others |].
  intros name value Hin Hnt.
  assert (H : In (name, value) (filter notTracking l)).
  { apply filter_In. split; [exact Hin |]. unfold notTracking. cbn [fst].
    rewrite Hnt. reflexivity. }
  rewrite <- stripAll_keeps_others in H. apply filter_In in H. exact (proj1 H).
Qed.

Lemma filter_all_true : forall (A : Type) (p : A -> bool) (l : list A),
  (forall x, In x l -> p x = true) -> filter p l = l.
Proof.
  intros A p l. induction l as [|x l IH]; intros H; simpl; [reflexivity |].
  rewrite (H x (or_introl eq_refl)), IH; [reflexivity |].
  intros y Hy. apply H. now right.
Qed.

Lemma setSearchParams_same : forall u, setSearchParams u (searchParams u) = u.
Proof. intros [o b p s f]. reflexivity. Qed.

(** X18.  A URL without tracking parameters keeps all its parameters: when
    no name equals or starts with an entry of the tracking list, the list of
    parameters comes back as it is, and the result is the serialisation of
    the parsed URL. *)
Theorem stripTrackingParams_nothing_to_strip :
  forall (parser : URLParser) (url : string) (u : URL),
    newURL url = Some u ->
    (forall name value, In (name, value) (searchParams u) -> isTracking name = false) ->
    stripAll (searchParams u) = searchParams u /\
    stripTrackingParams url = URL_toString u.
Proof.
  intros parser url u Hp Hnone.
  assert (E : stripAll (searchParams u) = searchParams u).
  { rewrite <- (filter_all_true _ notTracking (stripAll (searchParams u))).
    - rewrite stripAll_keeps_others. apply filter_all_true.
      intros [name value] Hin. unfold notTracking. cbn [fst].
      rewrite (Hnone name value Hin). reflexivity.
    - intros [name value] Hin. unfold notTracking. cbn [fst].
      apply stripAll_In in Hin. rewrite (Hnone name value (proj1 Hin)). reflexivity. }
  split; [exact E |].
  unfold stripTrackingParams. rewrite Hp, E, setSearchParams_same. reflexivity.
Qed.

Lemma stripTrackingParams_nothing_to_strip_witness :
  stripTrackingParams "https://x.test/p?id=1&page=2#top" = "https://x.test/p?id=1&page=2#top".
Proof.
  destruct (stripTrackingParams_nothing_to_strip simpleParser
              "https://x.test/p?id=1&page=2#top"
              {| origin := "https://x.test"; beforePath := "https://x.test";
                 pathname := "/p"; searchParams := [("id", "1"); ("page", "2")];
                 fragment := Some "top" |}) as [_ H].
  - vm_compute. reflexivity.
  - intros name value [E | [E | []]]; inversion E; vm_compute; reflexivity.
  - rewrite H. vm_compute. reflexivity.
Defined.

(** X19.  A URL all of whose parameters carry exact names of the tracking
    list comes back without a query: scheme, host, path and fragment only,
    and no question mark. *)
Theorem stripTrackingParams_drops_query :
  forall (parser : URLParser) (url : string) (u : URL),
    newURL url = Some u ->
    (forall name value, In (name, value) (searchParams u) -> In name trackingParams) ->
    stripTrackingParams url =
    beforePath u +++ pathname u +++
    match fragment u with None => "" | Some f => "#" +++ f end.
Proof.
  intros parser url u Hp Hall.
  assert (E : stripAll (searchParams u) = []).
  { destruct (stripAll (searchParams u)) as [|[name value] rest] eqn:S; [reflexivity |].
    exfalso.
    assert (Hin : In (name, value) (stripAll (searchParams u))) by (rewrite S; now left).
    apply stripAll_In in Hin. destruct Hin as [Hin Hnot]. apply Hnot.
    now apply (Hall name value). }
  unfold stripTrackingParams. rewrite Hp, E. reflexivity.
Qed.

Lemma stripTrackingParams_drops_query_witness :
  stripTrackingParams "https://x.test/p?utm_source=a&gclid=b&utm_source=c#top"
  = "https://x.test/p#top".
Proof.
  rewrite (stripTrackingParams_drops_query simpleParser
             "https://x.test/p?utm_source=a&gclid=b&utm_source=c#top"
             {| origin := "https://x.test"; beforePath := "https://x.test";
                pathname := "/p";
                searchParams := [("utm_source", "a"); ("gclid", "b"); ("utm_source", "c")];
                fragment := Some "top" |}).
  - vm_compute. reflexivity.
  - vm_compute. reflexivity.
  - intros name value [E | [E | [E | []]]]; inversion E; vm_compute; tauto.
Defined.

Section FirstParameter.

Variable k : string.

Lemma leads_delete : forall name l, leading k l -> leading k (URLSearchParams.delete name l).
Proof.
  intros name l [Hnone | (v & rest & ->)].
  - left. intros v Hin. apply delete_In in Hin. exact (Hnone v (proj1 Hin)).
  - unfold URLSearchParams.delete. cbn [filter fst].
    destruct (String.eqb k name) eqn:E; cbn [negb].
    + apply String.eqb_eq in E. subst name. left. intros v' Hin.
      change (In (k, v') (URLSearchParams.delete k rest)) in Hin.
      apply delete_In in Hin. cbn [fst] in Hin. tauto.
    + right. eauto.
Qed.

Lemma leads_deleteWhileIterating : forall fuel param index l,
  leading k l -> leading k (deleteWhileIterating fuel param index l).
Proof.
  induction fuel as [|fuel IH]; intros param index l H; simpl; [exact H |].
  destruct (nth_error l index) as [[key value]|]; [| exact H].
  apply IH. destruct (startsWithParam key param); [now apply leads_delete | exact H].
Qed.

Lemma leads_stripParam : forall l param, leading k l -> leading k (stripParam l param).
Proof.
  intros l param H. unfold stripParam.
  now apply leads_deleteWhileIterating, leads_delete.
Qed.

Lemma stripParam_removes_leader : forall l param v,
  leading k l -> startsWithParam k param = true -> ~ In (k, v) (stripParam l param).
Proof.
  intros l param v H Hp Hin. unfold stripParam in Hin.
  destruct (leads_delete param l H) as [Hnone | (v0 & rest & E)].
  - apply deleteWhileIterating_In in Hin. exact (Hnone v Hin).
  - rewrite E in Hin. cbn [List.length deleteWhileIterating nth_error] in Hin.
    rewrite Hp in Hin. apply deleteWhileIterating_In in Hin.
    apply delete_In in Hin. cbn [fst] in Hin. tauto.
Qed.

Lemma fold_stripParam_removes_leader : forall params l v,
  leading k l ->
  (exists param, In param params /\ startsWithParam k param = true) ->
  ~ In (k, v) (fold_left stripParam params l).
Proof.
  induction params as [|p params IH]; intros l v H (param & Hin & Hp).
  - destruct Hin.
  - cbn [fold_left]. destruct (startsWithParam k p) eqn:E.
    + intros C. apply fold_stripParam_In in C.
      exact (stripParam_removes_leader l p v H E (proj1 C)).
    + apply IH; [now apply leads_stripParam |].
      destruct Hin as [-> | Hin]; [congruence |]. eauto.
Qed.

End FirstParameter.

Lemma isTracking_param : forall key,
  isTracking key = true ->
  exists param, In param trackingParams /\ startsWithParam key param = true.
Proof.
  intros key H. unfold isTracking in H. apply existsb_exists in H.
  destruct H as (param & Hin & H). exists param. split; [exact Hin |].
  apply orb_prop in H. destruct H as [H | H]; [| exact H].
  apply String.eqb_eq in H. subst param. apply startsWith_refl.
Qed.

(** X20.  The first parameter of a query is never passed by: when its name
    equals or starts with (case ignored) an entry of the tracking list, no
    parameter of that name is left in the result. *)
Theorem stripAll_first_parameter :
  forall (name value : string) (rest : URLSearchParams.t),
    isTracking name = true ->
    forall value', ~ In (name, value') (stripAll ((name, value) :: rest)).
Proof.
  intros name value rest H value'. unfold stripAll.
  apply fold_stripParam_removes_leader.
  - right. eauto.
  - now apply isTracking_param.
Qed.

Lemma stripAll_first_parameter_witness :
  ~ In ("UTM_Source_x", "2")
       (stripAll [("UTM_Source_x", "1"); ("id", "7"); ("UTM_Source_x", "2")]).
Proof.
  apply (stripAll_first_parameter "UTM_Source_x" "1" [("id", "7"); ("UTM_Source_x", "2")]).
  vm_compute. reflexivity.
Defined.

(** X21.  The loop over the live list of parameters ends: it makes at most
    as many steps as the list has tuples beyond the index it starts from,
    deletions included, and any further fuel leaves its result unchanged. *)
Theorem deleteWhileIterating_terminates :
  forall (fuel extra : nat) (param : string) (index : nat) (l : URLSearchParams.t),
    List.length l - index <= fuel ->
    deleteWhileIterating (fuel + extra) param index l =
    deleteWhileIterating fuel param index l.
Proof.
  intros fuel extra param index l H. now apply deleteWhileIterating_fuel.
Qed.

Lemma deleteWhileIterating_terminates_witness :
  deleteWhileIterating (2 + 5) "utm_source" 0 [("utm_source_x", "1"); ("utm_source_y", "2")]
  = deleteWhileIterating 2 "utm_source" 0 [("utm_source_x", "1"); ("utm_source_y", "2")].
Proof.
  apply (deleteWhileIterating_terminates 2 5 "utm_source" 0
           [("utm_source_x", "1"); ("utm_source_y", "2")]).
  vm_compute. lia.
Defined.

(* ================================================================== *)
(** * Trimming and replacing *)
(* ================================================================== *)

Lemma allChars_app : forall p a b,
  allChars p (a +++ b) = allChars p a && allChars p b.
Proof.
  intros p. induction a as [|c a IH]; intros b; simpl; [reflexivity |].
  now rewrite IH, andb_assoc.
Qed.

Lemma allChars_trimStart : forall p s,
  allChars p s = true -> allChars p (JS.trimStart s) = true.
Proof.
  intros p. induction s as [|c s IH]; intros H; simpl in *; [reflexivity |].
  apply andb_prop in H. destruct H as [Hc Hs].
  destruct (JS.isWhiteSpace c); [auto |]. simpl. now rewrite Hc, Hs.
Qed.

Lemma allChars_trimEnd : forall p s,
  allChars p s = true -> allChars p (JS.trimEnd s) = true.
Proof.
  intros p. induction s as [|c s IH]; intros H; simpl in *; [reflexivity |].
  apply andb_prop in H. destruct H as [Hc Hs]. specialize (IH Hs).
  destruct (JS.trimEnd s) as [|b t].
  - destruct (JS.isWhiteSpace c); simpl; [reflexivity | now rewrite Hc].
  - cbn [allChars] in *. now rewrite Hc, IH.
Qed.

Lemma allChars_trim : forall p s, allChars p s = true -> allChars p (JS.trim s) = true.
Proof. intros p s H. unfold JS.trim. now apply allChars_trimEnd, allChars_trimStart. Qed.

(** What [trimEnd] keeps begins as the string does. *)
Lemma trimEnd_head : forall s b t,
  JS.trimEnd s = String b t -> exists r, s = String b r.
Proof.
  intros [|c s] b t H; simpl in H; [discriminate |].
  destruct (JS.trimEnd s).
  - destruct (JS.isWhiteSpace c); [discriminate |]. inversion H. eauto.
  - inversion H. eauto.
Qed.

Lemma trimEnd_ink_head : forall c s,
  JS.isWhiteSpace c = false -> exists t, JS.trimEnd (String c s) = String c t.
Proof.
  intros c s H. simpl. destruct (JS.trimEnd s); [rewrite H |]; eauto.
Qed.

Lemma trimEnd_cons : forall c s,
  JS.trimEnd (String c s) =
  match JS.trimEnd s with
  | EmptyString => if JS.isWhiteSpace c then EmptyString else String c EmptyString
  | String b t => String c (String b t)
  end.
Proof. intros c s. cbn [JS.trimEnd]. destruct (JS.trimEnd s); reflexivity. Qed.

Lemma trimEnd_idempotent : forall s, JS.trimEnd (JS.trimEnd s) = JS.trimEnd s.
Proof.
  induction s as [|c s IH]; [reflexivity |].
  rewrite (trimEnd_cons c s). destruct (JS.trimEnd s) as [|b t] eqn:E.
  - destruct (JS.isWhiteSpace c) eqn:W; [reflexivity |].
    rewrite trimEnd_cons. cbn [JS.trimEnd]. now rewrite W.
  - rewrite trimEnd_cons, IH. reflexivity.
Qed.

Lemma trimStart_head : forall s,
  JS.trimStart s = EmptyString \/
  exists c t, JS.trimStart s = String c t /\ JS.isWhiteSpace c = false.
Proof.
  induction s as [|c s IH]; simpl; [now left |].
  destruct (JS.isWhiteSpace c) eqn:W; [exact IH |]. right. eauto.
Qed.

(** Trimming a trimmed string changes nothing. *)
Lemma trim_idempotent : forall s, JS.trim (JS.trim s) = JS.trim s.
Proof.
  intros s. unfold JS.trim.
  destruct (trimStart_head s) as [E | (c & t & E & W)]; rewrite E; [reflexivity |].
  destruct (trimEnd_ink_head c t W) as (u & Eu). rewrite Eu.
  cbn [JS.trimStart]. rewrite W. rewrite <- Eu. apply trimEnd_idempotent.
Qed.

Lemma singleSpaced_tail : forall c s, singleSpaced (String c s) = true -> singleSpaced s = true.
Proof.
  intros c [|b s] H; [reflexivity |].
  change (negb (Ascii.eqb c SPACE && Ascii.eqb b SPACE) && singleSpaced (String b s) = true) in H.
  apply andb_prop in H. exact (proj2 H).
Qed.

Lemma singleSpaced_trimStart : forall s,
  singleSpaced s = true -> singleSpaced (JS.trimStart s) = true.
Proof.
  induction s as [|c s IH]; intros H; [reflexivity |]. cbn [JS.trimStart].
  destruct (JS.isWhiteSpace c); [| exact H].
  apply IH. now apply singleSpaced_tail with c.
Qed.

Lemma singleSpaced_trimEnd : forall s,
  singleSpaced s = true -> singleSpaced (JS.trimEnd s) = true.
Proof.
  induction s as [|c s IH]; intros H; [reflexivity |]. cbn [JS.trimEnd].
  pose proof (singleSpaced_tail c s H) as Hs. specialize (IH Hs).
  destruct (JS.trimEnd s) as [|b t] eqn:E.
  - destruct (JS.isWhiteSpace c); reflexivity.
  - destruct (trimEnd_head s b t E) as (r & ->).
    change (negb (Ascii.eqb c SPACE && Ascii.eqb b SPACE) && singleSpaced (String b r) = true) in H.
    change (negb (Ascii.eqb c SPACE && Ascii.eqb b SPACE) && singleSpaced (String b t) = true).
    apply andb_prop in H. rewrite (proj1 H). exact IH.
Qed.

Lemma singleSpaced_trim : forall s, singleSpaced s = true -> singleSpaced (JS.trim s) = true.
Proof. intros s H. unfold JS.trim. now apply singleSpaced_trimEnd, singleSpaced_trimStart. Qed.

Section ReplaceAll.

Variables (m : Regex.matcher) (replacement : string) (q : ascii -> bool).
Hypothesis replacement_ok : allChars q replacement = true.

(** The replacement writes nothing but what it reads and what it puts in. *)
Lemma replaceAll_allChars : forall s skip,
  allChars q s = true -> allChars q (Regex.replaceAll m replacement skip s) = true.
Proof.
  induction s as [|c s IH]; intros skip H; [reflexivity |].
  cbn [allChars] in H. apply andb_prop in H. destruct H as [Hc Hs].
  cbn [Regex.replaceAll]. destruct skip as [|k]; [| now apply IH].
  destruct (m (String c s)) as [[|n]|].
  - cbn [allChars]. now rewrite Hc, IH.
  - rewrite allChars_app, replacement_ok. now apply IH.
  - cbn [allChars]. now rewrite Hc, IH.
Qed.

(** When the expression matches wherever a code unit outside [q] stands,
    no such code unit is left. *)
Lemma replaceAll_clears : forall s skip,
  (forall c s', q c = false -> exists n, m (String c s') = Some (S n)) ->
  allChars q (Regex.replaceAll m replacement skip s) = true.
Proof.
  induction s as [|c s IH]; intros skip Hm; [reflexivity |].
  cbn [Regex.replaceAll]. destruct skip as [|k]; [| now apply IH].
  destruct (q c) eqn:Q.
  - destruct (m (String c s)) as [[|n]|].
    + cbn [allChars]. now rewrite Q, IH.
    + rewrite allChars_app, replacement_ok. now apply IH.
    + cbn [allChars]. now rewrite Q, IH.
  - destruct (Hm c s Q) as (n & ->).
    rewrite allChars_app, replacement_ok. now apply IH.
Qed.

End ReplaceAll.

Lemma eqb_SPACE_white : forall c, Ascii.eqb c SPACE = true -> JS.isWhiteSpace c = true.
Proof. intros c H. apply Ascii.eqb_eq in H. now subst c. Qed.

Lemma singleSpaced_two : forall a b r,
  singleSpaced (String a (String b r)) =
  negb (Ascii.eqb a SPACE && Ascii.eqb b SPACE) && singleSpaced (String b r).
Proof. reflexivity. Qed.

Lemma singleSpaced_cons : forall c s,
  singleSpaced s = true -> (Ascii.eqb c SPACE = false \/ inkFirst s = true) ->
  singleSpaced (String c s) = true.
Proof.
  intros c [|b s] H Hc; [reflexivity |]. rewrite singleSpaced_two, H.
  destruct Hc as [Hc | Hc]; [now rewrite Hc |].
  cbn [inkFirst] in Hc. apply negb_true_iff in Hc. rewrite Hc.
  now rewrite andb_false_r.
Qed.

(** Replacing every run of a class that holds the space by one space leaves
    no two neighbouring spaces. *)
Lemma collapse_singleSpaced : forall (p : ascii -> bool),
  p SPACE = true ->
  forall s skip,
    (skip = 0 -> singleSpaced (Regex.replaceAll (Regex.run p) " " skip s) = true) /\
    (skip = Regex.span p s ->
     singleSpaced (Regex.replaceAll (Regex.run p) " " skip s) = true /\
     inkFirst (Regex.replaceAll (Regex.run p) " " skip s) = true).
Proof.
  intros p Hp. induction s as [|c s IH]; intros skip.
  - split; intros _; [reflexivity | split; reflexivity].
  - cbn [Regex.replaceAll Regex.span]. unfold Regex.run. cbn [Regex.span].
    destruct (p c) eqn:Pc.
    + destruct skip as [|k].
      * split; [intros _ | discriminate].
        destruct (IH (Regex.span p s)) as [_ H]. destruct (H eq_refl) as [H1 H2].
        change (" " +++ ?x) with (String SPACE x).
        apply singleSpaced_cons; [exact H1 | now right].
      * split; [discriminate |]. intros E. inversion E. subst k.
        destruct (IH (Regex.span p s)) as [_ H]. exact (H eq_refl).
    + assert (Hc : Ascii.eqb c SPACE = false).
      { destruct (Ascii.eqb c SPACE) eqn:E; [| reflexivity].
        apply Ascii.eqb_eq in E. subst c. congruence. }
      destruct skip as [|k].
      * destruct (IH 0) as [H _]. specialize (H eq_refl).
        assert (S1 : singleSpaced (String c (Regex.replaceAll (Regex.run p) " " 0 s)) = true)
          by (apply singleSpaced_cons; auto).
        split; [intros _; exact S1 |]. intros _. split; [exact S1 |].
        cbn [inkFirst]. now rewrite Hc.
      * split; discriminate.
Qed.

Lemma allChars_impl : forall (p q : ascii -> bool) s,
  (forall c, p c = true -> q c = true) -> allChars p s = true -> allChars q s = true.
Proof.
  intros p q s Hpq. induction s as [|c s IH]; intros H; [reflexivity |].
  cbn [allChars] in *. apply andb_prop in H. destruct H as [Hc Hs].
  now rewrite (Hpq c Hc), IH.
Qed.

Lemma blankLines_noop : forall replacement s,
  allChars (Regex.isNot JS.LF) s = true ->
  Regex.replaceAll Regex.blankLines replacement 0 s = s.
Proof.
  intros replacement. induction s as [|c s IH]; intros H; [reflexivity |].
  cbn [allChars] in H. apply andb_prop in H. destruct H as [Hc Hs].
  unfold Regex.isNot in Hc. apply negb_true_iff in Hc.
  cbn [Regex.replaceAll Regex.blankLines]. rewrite Hc. now rewrite IH.
Qed.

Lemma spaceOrInk_not_LF : forall c, spaceOrInk c = true -> Regex.isNot JS.LF c = true.
Proof.
  intros c H. unfold Regex.isNot. destruct (Ascii.eqb c JS.LF) eqn:E; [| reflexivity].
  apply Ascii.eqb_eq in E. subst c. discriminate H.
Qed.

Lemma collapse_spaceOrInk : forall s skip,
  allChars spaceOrInk (Regex.replaceAll (Regex.run JS.isWhiteSpace) " " skip s) = true.
Proof.
  intros s skip. apply replaceAll_clears; [reflexivity |].
  intros c s' H. unfold spaceOrInk in H. apply orb_false_elim in H.
  destruct H as [H _]. apply negb_false_iff in H.
  unfold Regex.run. cbn [Regex.span]. rewrite H. eauto.
Qed.

(** X22.  The text [extractText] returns is in a normal form: the plain
    space is its only white space, so it holds no line break and no tab, no
    two spaces stand side by side, and it neither begins nor ends with white
    space.  The second replacement of the normalisation, that of blank
    lines, never finds anything to replace: the first one has left no line
    feed. *)
Theorem extractText_normal_form :
  (forall dom : document,
      allChars spaceOrInk (extractText dom) = true /\
      singleSpaced (extractText dom) = true /\
      JS.trim (extractText dom) = extractText dom) /\
  (forall text : string,
      normalizeWhiteSpace text =
      JS.trim (Regex.replaceAll (Regex.run JS.isWhiteSpace) " " 0 text)).
Proof.
  assert (D : forall text,
             normalizeWhiteSpace text =
             JS.trim (Regex.replaceAll (Regex.run JS.isWhiteSpace) " " 0 text)).
  { intros text. unfold normalizeWhiteSpace. rewrite blankLines_noop; [reflexivity |].
    apply allChars_impl with spaceOrInk; [exact spaceOrInk_not_LF |].
    apply collapse_spaceOrInk. }
  split; [| exact D].
  intros dom. unfold extractText. cbv zeta. rewrite D.
  split; [| split].
  - apply allChars_trim, collapse_spaceOrInk.
  - apply singleSpaced_trim.
    destruct (collapse_singleSpaced JS.isWhiteSpace eq_refl
                (fold_left (fun text pattern => Regex.replaceAll pattern "" 0 text)
                           personalizationPatterns
                           (JS.orElse (bodyText dom) (textOfAll dom))) 0) as [H _].
    exact (H eq_refl).
  - apply trim_idempotent.
Qed.

Lemma allChars_split : forall p sep s l,
  allChars p s = true -> In l (JS.split sep s) -> allChars p l = true.
Proof.
  intros p sep. induction s as [|c s IH]; intros l H Hin.
  - destruct Hin as [<- | []]. reflexivity.
  - cbn [allChars] in H. apply andb_prop in H. destruct H as [Hc Hs].
    cbn [JS.split] in Hin. destruct (Ascii.eqb c sep).
    + destruct Hin as [<- | Hin]; [reflexivity | now apply IH].
    + destruct (JS.split sep s) as [|l0 ls].
      * destruct Hin as [<- | []]. cbn. now rewrite Hc.
      * destruct Hin as [<- | Hin].
        -- cbn [allChars]. rewrite Hc. apply IH; [exact Hs | now left].
        -- apply IH; [exact Hs | now right].
Qed.

Lemma allChars_join : forall p sep ls,
  allChars p sep = true -> (forall l, In l ls -> allChars p l = true) ->
  allChars p (JS.join sep ls) = true.
Proof.
  intros p sep ls Hsep. induction ls as [|x ls IH]; intros H; [reflexivity |].
  destruct ls as [|y ls]; [apply H; now left |].
  change (JS.join sep (x :: y :: ls)) with (x +++ sep +++ JS.join sep (y :: ls)).
  rewrite !allChars_app, Hsep, (H x (or_introl eq_refl)). cbn [andb].
  apply IH. intros l Hl. apply H. now right.
Qed.

Lemma split_head : forall sep b r l0 ls,
  JS.split sep (String b r) = l0 :: ls ->
  l0 = EmptyString \/ exists l', l0 = String b l'.
Proof.
  intros sep b r l0 ls H. cbn [JS.split] in H. destruct (Ascii.eqb b sep).
  - inversion H. now left.
  - destruct (JS.split sep r); inversion H; right; eauto.
Qed.

Lemma singleSpaced_split : forall s l,
  singleSpaced s = true -> In l (JS.split JS.LF s) -> singleSpaced l = true.
Proof.
  induction s as [|c s IH]; intros l H Hin.
  - destruct Hin as [<- | []]. reflexivity.
  - pose proof (singleSpaced_tail c s H) as Hs.
    cbn [JS.split] in Hin. destruct (Ascii.eqb c JS.LF).
    + destruct Hin as [<- | Hin]; [reflexivity | now apply IH].
    + destruct (JS.split JS.LF s) as [|l0 ls] eqn:E.
      * destruct Hin as [<- | []]. reflexivity.
      * destruct Hin as [<- | Hin]; [| apply IH; [exact Hs | now right]].
        apply singleSpaced_cons; [apply IH; [exact Hs | now left] |].
        destruct s as [|b r]; [cbn in E; inversion E; now right |].
        destruct (split_head _ _ _ _ _ E) as [-> | (l' & ->)]; [now right |].
        rewrite singleSpaced_two in H. apply andb_prop in H. destruct H as [H _].
        apply negb_true_iff, andb_false_iff in H. cbn [inkFirst].
        destruct H as [H | H]; [now left | right; now rewrite H].
Qed.

Lemma singleSpaced_app_LF : forall a b,
  singleSpaced a = true -> singleSpaced b = true ->
  singleSpaced (a +++ String JS.LF b) = true.
Proof.
  induction a as [|c a IH]; intros b Ha Hb.
  - apply singleSpaced_cons; [exact Hb | now left].
  - change (String c a +++ String JS.LF b) with (String c (a +++ String JS.LF b)).
    apply singleSpaced_cons; [apply IH; [now apply singleSpaced_tail with c | exact Hb] |].
    destruct a as [|d a]; [now right |].
    rewrite singleSpaced_two in Ha. apply andb_prop in Ha. destruct Ha as [Ha _].
    apply negb_true_iff, andb_false_iff in Ha. cbn [String.append inkFirst].
    destruct Ha as [Ha | Ha]; [now left | right; now rewrite Ha].
Qed.

Lemma singleSpaced_join : forall ls,
  (forall l, In l ls -> singleSpaced l = true) ->
  singleSpaced (JS.join JS.newline ls) = true.
Proof.
  induction ls as [|x ls IH]; intros H; [reflexivity |].
  destruct ls as [|y ls]; [apply H; now left |].
  change (JS.join JS.newline (x :: y :: ls))
    with (x +++ String JS.LF (JS.join JS.newline (y :: ls))).
  apply singleSpaced_app_LF; [apply H; now left |].
  apply IH. intros l Hl. apply H. now right.
Qed.

(** X23.  The text [normalizeText] returns for the reference document holds
    no carriage return and no tab, no two spaces side by side, and neither
    begins nor ends with white space. *)
Theorem normalizeText_normal_form :
  forall text : string,
    allChars (Regex.isNot CR) (normalizeText text) = true /\
    allChars (Regex.isNot TAB) (normalizeText text) = true /\
    singleSpaced (normalizeText text) = true /\
    JS.trim (normalizeText text) = normalizeText text.
Proof.
  intros text. unfold normalizeText. cbv zeta.
  set (t1 := Regex.replaceAll (Regex.literal (String CR JS.newline)) JS.newline 0 text).
  set (t2 := Regex.replaceAll (Regex.literal (String CR "")) JS.newline 0 t1).
  set (t3 := Regex.replaceAll (Regex.runAtLeast 3 (Ascii.eqb JS.LF))
                              (JS.newline +++ JS.newline) 0 t2).
  set (t4 := Regex.replaceAll (Regex.run isSpaceOrTab) " " 0 t3).
  assert (C2 : allChars (Regex.isNot CR) t2 = true).
  { apply replaceAll_clears; [reflexivity |]. intros c s' H.
    unfold Regex.isNot in H. apply negb_false_iff, Ascii.eqb_eq in H. subst c.
    exists 0. unfold Regex.literal. cbn [JS.startsWith].
    rewrite Ascii.eqb_refl. now destruct s'. }
  assert (C4 : allChars (Regex.isNot CR) t4 = true).
  { apply replaceAll_allChars; [reflexivity |].
    apply replaceAll_allChars; [reflexivity | exact C2]. }
  assert (T4 : allChars (Regex.isNot TAB) t4 = true).
  { apply replaceAll_clears; [reflexivity |]. intros c s' H.
    unfold Regex.isNot in H. apply negb_false_iff, Ascii.eqb_eq in H. subst c.
    unfold Regex.run. cbn [Regex.span]. change (isSpaceOrTab TAB) with true. cbv iota.
    eauto. }
  assert (S4 : singleSpaced t4 = true).
  { destruct (collapse_singleSpaced isSpaceOrTab eq_refl t3 0) as [H _]. exact (H eq_refl). }
  assert (L : forall p, allChars p t4 = true -> p JS.LF = true ->
                        allChars p (JS.trim (JS.join JS.newline
                                               (map JS.trim (JS.split JS.LF t4)))) = true).
  { intros p Hp Hlf. apply allChars_trim, allChars_join.
    { change (allChars p JS.newline) with (p JS.LF && true). now rewrite Hlf. }
    intros l Hl. apply in_map_iff in Hl. destruct Hl as (l0 & <- & Hl0).
    apply allChars_trim. now apply allChars_split with JS.LF t4. }
  split; [apply L; [exact C4 | reflexivity] |].
  split; [apply L; [exact T4 | reflexivity] |].
  split; [| apply trim_idempotent].
  apply singleSpaced_trim, singleSpaced_join.
  intros l Hl. apply in_map_iff in Hl. destruct Hl as (l0 & <- & Hl0).
  apply singleSpaced_trim. now apply singleSpaced_split with t4.
Qed.

(* ================================================================== *)
(** * Links, candidates and the whole of [parseEmail] *)
(* ================================================================== *)

(** A selector without descendant combinators selects every element that
    matches it, wherever it stands. *)
Lemma selectIn_complete : forall sel n ancestors x name attribs children,
  In x (subelements n) ->
  x = Element name attribs children ->
  (forall ancestors', existsb (matchComplex ancestors' (name, attribs)) sel = true) ->
  In x (selectIn sel ancestors n).
Proof.
  intros sel n. induction n as [data | name0 attribs0 children0 IH] using node_induction;
    intros ancestors x name attribs children Hin Hx Hm.
  - destruct Hin.
  - rewrite subelements_Element in Hin. rewrite selectIn_Element.
    apply in_or_app. destruct Hin as [Hin | Hin].
    + left. rewrite Hx in Hin. inversion Hin. subst. rewrite Hm. now left.
    + right. apply in_flat_map in Hin. destruct Hin as (c & Hc & Hin).
      apply in_flat_map. exists c. split; [exact Hc |].
      rewrite Forall_forall in IH. now apply (IH c Hc) with name attribs children.
Qed.

Lemma select_complete : forall sel dom x name attribs children,
  In x (elements dom) ->
  x = Element name attribs children ->
  (forall ancestors, existsb (matchComplex ancestors (name, attribs)) sel = true) ->
  In x (select sel dom).
Proof.
  intros sel dom x name attribs children Hin Hx Hm.
  unfold elements in Hin. apply in_flat_map in Hin. destruct Hin as (n & Hn & Hin).
  unfold select. apply in_flat_map. exists n. split; [exact Hn |].
  now apply selectIn_complete with name attribs children.
Qed.

Lemma ctaSelectors_anchor : forall ancestors name attribs,
  existsb (matchComplex ancestors (name, attribs)) ctaSelectors = true -> name = "a".
Proof.
  intros ancestors name attribs H. destruct (String.eqb name "a") eqn:E.
  - now apply String.eqb_eq.
  - exfalso. unfold ctaSelectors in H.
    cbn [existsb matchComplex matchCompound forallb matchSimple fst snd] in H.
    rewrite E in H. cbn [andb orb] in H. discriminate H.
Qed.

Lemma anchorSelector_anchor : forall ancestors name attribs,
  existsb (matchComplex ancestors (name, attribs)) [Compound [Tag "a"]] = true -> name = "a".
Proof.
  intros ancestors name attribs H.
  cbn [existsb matchComplex matchCompound forallb matchSimple fst snd] in H.
  rewrite andb_true_r, orb_false_r in H. now apply String.eqb_eq.
Qed.

Lemma truthy_orElse : forall a b, JS.truthy b = true -> JS.truthy (JS.orElse a b) = true.
Proof. intros a b H. unfold JS.orElse. destruct (JS.truthy a) eqn:E; assumption. Qed.

Lemma elHref_attr : forall name attribs children,
  JS.truthy (elHref (Element name attribs children)) = true ->
  exists h, getAttr "href" attribs = Some h.
Proof.
  intros name attribs children H. unfold elHref, attr in H.
  destruct (getAttr "href" attribs) as [h|]; [eauto | discriminate H].
Qed.

Section Links.

Context {parser : URLParser}.

Lemma fold_pushLink : forall els links,
  fold_left pushLink els links = links ++ map linkOf (filter linkable els).
Proof.
  induction els as [|el els IH]; intros links; simpl.
  - now rewrite app_nil_r.
  - rewrite IH. unfold pushLink. destruct (linkable el); [| reflexivity].
    cbn [map]. now rewrite <- app_assoc.
Qed.

Lemma extractLinks_eq : forall dom,
  extractLinks dom = map linkOf (filter linkable (select linkSelector dom)).
Proof. intros dom. unfold extractLinks. now rewrite fold_pushLink. Qed.

(** X24.  The links are those of the anchors that carry an [href], in
    document order, the anchors with an empty address or with a [mailto:] or
    [tel:] address left out.  Every link has a non-empty text (the
    placeholder when the anchor has none), a non-empty address that does not
    start with [mailto:] or [tel:], and the stripped form of that address. *)
Theorem extractLinks_spec :
  forall dom : document,
    extractLinks dom = map linkOf (filter linkable (select linkSelector dom)) /\
    (forall link, In link (extractLinks dom) ->
       JS.truthy (cta_text link) = true /\
       JS.truthy (cta_url link) = true /\
       JS.startsWith (cta_url link) "mailto:" = false /\
       JS.startsWith (cta_url link) "tel:" = false /\
       cta_cleanUrl link = stripTrackingParams (cta_url link)).
Proof.
  intros dom.
  pose proof (extractLinks_eq dom) as E.
  split; [exact E |]. intros link Hin. rewrite E in Hin.
  apply in_map_iff in Hin. destruct Hin as (el & <- & Hel).
  apply filter_In in Hel. destruct Hel as [_ Hl]. unfold linkable in Hl.
  apply andb_prop in Hl. destruct Hl as [Hl Htel].
  apply andb_prop in Hl. destruct Hl as [Hhref Hmail].
  apply negb_true_iff in Htel, Hmail. cbn [linkOf cta_text cta_url cta_cleanUrl].
  repeat split; try assumption. now apply truthy_orElse.
Qed.

(** Where a candidate comes from: an anchor of the document, with a text
    and an address. *)
Lemma extractCTAs_origin : forall dom c,
  In c (extractCTAs dom) ->
  exists attribs children,
    In (Element "a" attribs children) (elements dom) /\
    c = candidate (Element "a" attribs children) /\
    usable c = true.
Proof.
  intros dom c Hin. unfold extractCTAs in Hin. rewrite fold_pushButton in Hin.
  cbn [app] in Hin.
  destruct (fold_pushProminent (select [Compound [Tag "a"]] dom)
              (filter usable (map candidate (select ctaSelectors dom))))
    as (added & Heq & Hsub & _ & Hall).
  rewrite Heq in Hin. apply in_app_or in Hin.
  assert (K : forall sel,
             (forall ancestors name attribs,
                 existsb (matchComplex ancestors (name, attribs)) sel = true -> name = "a") ->
             In c (map candidate (select sel dom)) -> usable c = true ->
             exists attribs children,
               In (Element "a" attribs children) (elements dom) /\
               c = candidate (Element "a" attribs children) /\ usable c = true).
  { intros sel Hsel Hc Hu. apply in_map_iff in Hc. destruct Hc as (el & <- & Hel).
    apply select_sound in Hel.
    destruct Hel as (Hel & name & attribs & children & ancestors & -> & Hm).
    apply Hsel in Hm. subst name. eauto. }
  destruct Hin as [Hin | Hin].
  - apply filter_In in Hin. destruct Hin as [Hin Hu].
    exact (K ctaSelectors ctaSelectors_anchor Hin Hu).
  - destruct (Hall c Hin) as (_ & Hu & _).
    apply (K [Compound [Tag "a"]] anchorSelector_anchor); [| exact Hu].
    now apply subsequence_In with added.
Qed.

(** X25.  Every CTA candidate is also a link, with the same text, address
    and stripped address, unless its address starts with [mailto:] or
    [tel:]. *)
Theorem extractCTAs_among_links :
  forall (dom : document) (c : CTA),
    In c (extractCTAs dom) ->
    JS.startsWith (cta_url c) "mailto:" = false ->
    JS.startsWith (cta_url c) "tel:" = false ->
    In c (extractLinks dom).
Proof.
  intros dom c Hin Hmail Htel.
  destruct (extractCTAs_origin dom c Hin) as (attribs & children & Hel & -> & Hu).
  rewrite extractLinks_eq.
  unfold usable in Hu. cbn [candidate cta_text cta_url] in Hu, Hmail, Htel.
  apply andb_prop in Hu. destruct Hu as [Ht Hh].
  apply in_map_iff. exists (Element "a" attribs children). split.
  - unfold linkOf, candidate, JS.orElse. now rewrite Ht.
  - apply filter_In. split.
    + destruct (elHref_attr _ _ _ Hh) as (h & Hattr).
      apply select_complete with "a" attribs children; [exact Hel | reflexivity |].
      intros ancestors. unfold linkSelector.
      cbn [existsb matchComplex matchCompound forallb matchSimple fst snd String.eqb
             Ascii.eqb Bool.eqb andb orb].
      now rewrite Hattr.
    + unfold linkable. now rewrite Hh, Hmail, Htel.
Qed.

(** X26.  Every CTA candidate has a display text that is not empty and is
    trimmed, a non-empty address, and the stripped form of that address.  No
    candidate has a blank text. *)
Theorem extractCTAs_well_formed :
  forall (dom : document) (c : CTA),
    In c (extractCTAs dom) ->
    JS.truthy (cta_text c) = true /\
    JS.trim (cta_text c) = cta_text c /\
    JS.truthy (cta_url c) = true /\
    cta_cleanUrl c = stripTrackingParams (cta_url c).
Proof.
  intros dom c Hin.
  destruct (extractCTAs_origin dom c Hin) as (attribs & children & _ & -> & Hu).
  unfold usable in Hu. apply andb_prop in Hu. destruct Hu as [Ht Hh].
  cbn [candidate cta_text cta_url cta_cleanUrl] in *.
  repeat split; try assumption. unfold elText. apply trim_idempotent.
Qed.

End Links.

Lemma extractCTAs_among_links_witness :
  let dom := [ Element "body" []
                 [ Element "a" [("class", "btn"); ("href", "https://shop.test/sale?utm_source=n")]
                     [ Text " Shop Now " ];
                   Element "a" [("href", "mailto:help@shop.test")] [ Text "Get help" ] ] ] in
  In {| cta_text := "Shop Now"; cta_url := "https://shop.test/sale?utm_source=n";
        cta_cleanUrl := "https://shop.test/sale" |} (extractLinks dom).
Proof.
  intros dom.
  apply (extractCTAs_among_links dom); [left | |]; vm_compute; reflexivity.
Defined.

Lemma extractCTAs_well_formed_witness :
  let dom := [ Element "body" []
                 [ Element "a" [("href", "https://shop.test/new")] [ Text " View all " ] ] ] in
  let c := {| cta_text := "View all"; cta_url := "https://shop.test/new";
              cta_cleanUrl := "https://shop.test/new" |} in
  In c (extractCTAs dom) /\
  JS.truthy (cta_text c) = true /\ JS.trim (cta_text c) = cta_text c /\
  JS.truthy (cta_url c) = true /\ cta_cleanUrl c = stripTrackingParams (cta_url c).
Proof.
  intros dom c.
  assert (Hin : In c (extractCTAs dom)) by (left; vm_compute; reflexivity).
  split; [exact Hin |]. exact (extractCTAs_well_formed dom c Hin).
Defined.

Lemma removeIn_Element : forall sel ancestors name attribs children,
  removeIn sel ancestors (Element name attribs children) =
  if existsb (matchComplex ancestors (name, attribs)) sel then []
  else [ Element name attribs
           (flat_map (removeIn sel ((name, attribs) :: ancestors)) children) ].
Proof. intros sel ancestors name attribs children. reflexivity. Qed.

(** What is left after a removal by tag was not selected for removal. *)
Lemma removeIn_clean : forall sel n ancestors x name attribs children,
  (forall a a' el, existsb (matchComplex a el) sel = existsb (matchComplex a' el) sel) ->
  In x (flat_map subelements (removeIn sel ancestors n)) ->
  x = Element name attribs children ->
  existsb (matchComplex [] (name, attribs)) sel = false.
Proof.
  intros sel n. induction n as [data | name0 attribs0 children0 IH] using node_induction;
    intros ancestors x name attribs children Hfree Hin Hx.
  - destruct Hin.
  - rewrite removeIn_Element in Hin.
    destruct (existsb (matchComplex ancestors (name0, attribs0)) sel) eqn:M; [destruct Hin |].
    cbn [flat_map] in Hin. rewrite app_nil_r, subelements_Element in Hin.
    destruct Hin as [Hin | Hin].
    + rewrite Hx in Hin. inversion Hin. subst.
      now rewrite (Hfree [] ancestors).
    + apply in_flat_map in Hin. destruct Hin as (c' & Hc' & Hin).
      apply in_flat_map in Hc'. destruct Hc' as (c & Hc & Hc').
      rewrite Forall_forall in IH.
      apply (IH c Hc ((name0, attribs0) :: ancestors) x name attribs children Hfree);
        [| exact Hx].
      apply in_flat_map. exists c'. auto.
Qed.

(** X27.  The extractor never sees a [script], [style], [head], [meta] or
    [link] element: none is left in the document that [parseEmail] reads its
    text, candidates, links, unsubscribe signal and footer from. *)
Theorem remove_leaves_none :
  forall (loaded : document) (name : string) (attribs : list (string * string))
         (children : list node),
    In (Element name attribs children) (elements (remove removedTags loaded)) ->
    ~ In name [ "script"; "style"; "head"; "meta"; "link" ].
Proof.
  intros loaded name attribs children Hin Hname.
  unfold elements, remove in Hin. apply in_flat_map in Hin.
  destruct Hin as (n' & Hn' & Hin). apply in_flat_map in Hn'.
  destruct Hn' as (n & Hn & Hn').
  assert (M : existsb (matchComplex [] (name, attribs)) removedTags = false).
  { apply (removeIn_clean removedTags n [] (Element name attribs children)
             name attribs children); [reflexivity | | reflexivity].
    apply in_flat_map. exists n'. auto. }
  unfold removedTags in M.
  cbn [existsb matchComplex matchCompound forallb matchSimple fst snd] in M.
  destruct Hname as [<- | [<- | [<- | [<- | [<- | []]]]]]; discriminate M.
Qed.

Lemma remove_leaves_none_witness :
  let loaded :=
    [ Element "html" []
        [ Element "head" [] [ Element "title" [] [ Text "Offer" ] ];
          Element "body" []
            [ Element "script" [] [ Text "track()" ]; Element "p" [] [ Text "Hello" ] ] ] ] in
  In (Element "p" [] [ Text "Hello" ]) (elements (remove removedTags loaded)) /\
  ~ In "p" [ "script"; "style"; "head"; "meta"; "link" ].
Proof.
  intros loaded.
  assert (Hin : In (Element "p" [] [ Text "Hello" ]) (elements (remove removedTags loaded)))
    by (vm_compute; right; right; now left).
  split; [exact Hin |]. exact (remove_leaves_none loaded "p" [] [ Text "Hello" ] Hin).
Defined.

(** X28.  An anchor with an address that contains unsubscribe, optout or
    opt-out, anywhere in the document outside the removed elements, makes
    the unsubscribe check pass on the parsed email, whatever its text and
    the configuration. *)
Theorem parseEmail_unsubscribe_link :
  forall (parser : URLParser) (html : string) (loaded : document)
         (documentText : string) (config : Config)
         (attribs : list (string * string)) (children : list node) (href : string),
    In (Element "a" attribs children) (elements (remove removedTags loaded)) ->
    getAttr "href" attribs = Some href ->
    JS.includes href "unsubscribe" = true \/ JS.includes href "optout" = true \/
    JS.includes href "opt-out" = true ->
    hasLink (parsed_hasUnsubscribe (parseEmail html loaded)) = true /\
    unsub_status
      (res_unsubscribe (compare documentText (asContent (parseEmail html loaded)) config))
    = PASS.
Proof.
  intros parser html loaded doc config attribs children href Hel Hattr Hword.
  set (dom := remove removedTags loaded) in *.
  assert (Hsel : In (Element "a" attribs children) (select unsubscribeLinkSelector dom)).
  { apply select_complete with "a" attribs children; [exact Hel | reflexivity |].
    intros ancestors. unfold unsubscribeLinkSelector.
    cbn [existsb matchComplex matchCompound forallb matchSimple fst snd String.eqb
           Ascii.eqb Bool.eqb andb].
    rewrite Hattr.
    destruct Hword as [H | [H | H]]; rewrite H; cbn [andb orb];
      rewrite ?orb_true_r; reflexivity. }
  assert (Hlink : hasLink (findUnsubscribe dom) = true).
  { unfold findUnsubscribe. cbn [hasLink].
    destruct (select unsubscribeLinkSelector dom); [destruct Hsel | reflexivity]. }
  split; [exact Hlink |].
  unfold compare. cbn [res_unsubscribe]. apply checkUnsubscribe_found.
  unfold signalField, asContent, parseEmail. cbn [hasUnsubscribe parsed_hasUnsubscribe].
  fold dom. unfold findUnsubscribe in *. cbn [found hasLink] in *.
  rewrite Hlink. apply orb_true_r.
Qed.

Lemma parseEmail_unsubscribe_link_witness :
  let loaded :=
    [ Element "html" []
        [ Element "head" [] [ Element "title" [] [ Text "Offer" ] ];
          Element "body" []
            [ Element "p" [] [ Text "Big sale" ];
              Element "a" [("href", "https://x.test/prefs/optout")] [ Text "Preferences" ] ] ] ] in
  let config := {| ctaTexts := None; ctaUrls := None; requiredKeywords := None;
                   unsubscribeText := None; footerTexts := None |} in
  parsed_text (parseEmail "" loaded) = "Big salePreferences" /\
  unsub_status (res_unsubscribe (compare "" (asContent (parseEmail "" loaded)) config)) = PASS.
Proof.
  intros loaded config. split; [vm_compute; reflexivity |].
  apply (parseEmail_unsubscribe_link simpleParser "" loaded "" config
           [("href", "https://x.test/prefs/optout")] [ Text "Preferences" ]
           "https://x.test/prefs/optout").
  - vm_compute. right. right. right. now left.
  - reflexivity.
  - right. left. vm_compute. reflexivity.
Defined.

Lemma truthy_app : forall a b, JS.truthy a = true -> JS.truthy (a +++ b) = true.
Proof. intros [|c a] b H; [discriminate H | reflexivity]. Qed.

Lemma truthy_join : forall sep x rest,
  JS.truthy x = true -> JS.truthy (JS.join sep (x :: rest)) = true.
Proof.
  intros sep x [|y rest] H; [exact H |].
  change (JS.join sep (x :: y :: rest)) with (x +++ sep +++ JS.join sep (y :: rest)).
  now apply truthy_app.
Qed.

Lemma nonBlankLines_truthy : forall allText l,
  In l (nonBlankLines allText) -> JS.truthy l = true.
Proof.
  intros allText l H. unfold nonBlankLines in H. apply filter_In in H.
  destruct H as [_ H]. destruct l; [discriminate H | reflexivity].
Qed.

(** X29.  The footer is empty only when there is nothing to make it from:
    as soon as the text of the body has a non-blank line, [extractFooter]
    returns a non-empty string. *)
Theorem extractFooter_not_empty :
  forall dom : document,
    nonBlankLines (bodyText dom) <> [] -> extractFooter dom <> EmptyString.
Proof.
  intros dom Hlines. unfold extractFooter.
  destruct (JS.truthy (firstFooterText footerSelectors dom)) eqn:T; cbn [negb].
  - intros E. rewrite E in T. discriminate T.
  - set (lines := nonBlankLines (bodyText dom)) in *.
    assert (Hlast : exists x rest, JS.sliceLast 5 lines = x :: rest /\ In x lines).
    { unfold JS.sliceLast.
      destruct (skipn (List.length lines - 5) lines) as [|x rest] eqn:E.
      - exfalso. assert (L := length_skipn (List.length lines - 5) lines).
        rewrite E in L. cbn [List.length] in L.
        destruct lines; [congruence | cbn [List.length] in L; lia].
      - exists x, rest. split; [reflexivity |].
        rewrite <- (firstn_skipn (List.length lines - 5) lines), E.
        apply in_or_app. right. now left. }
    destruct Hlast as (x & rest & E & Hx). rewrite E.
    intros C. pose proof (truthy_join JS.newline x rest (nonBlankLines_truthy _ _ Hx)) as T'.
    rewrite C in T'. discriminate T'.
Qed.

Lemma extractFooter_not_empty_witness :
  extractFooter [ Element "body" [] [ Element "footer" [] [ Text "  " ]; Text "Acme Inc." ] ]
  <> EmptyString.
Proof.
  apply extractFooter_not_empty. vm_compute. discriminate.
Defined.
